(** * hypatia-earth/zero: sampling and synthesising fields on the O1280 grid

    A shallow embedding of the Python scripts that index, sample and
    reproject values on the octahedral reduced Gaussian grid O1280
    ([scripts/temp-to-png.py], [test/temp-to-png.py]) and of the fixture
    generators ([tests/scripts/generate_wind_fixtures.py],
    [tests/scripts/generate_pressure_fixtures.py]).

    Numbers.  Python [int]s and NumPy integer scalars are [Z]; the
    [np.uint32] offset table keeps its wrap-around modulo [2^32], and a
    Python int that meets an [np.int64] must fit into 64 bits.  The
    scripts' floating-point scalars are an interface, [PyFloat], with two
    implementations:
    - [Binary64]: the kernel's IEEE-754 binary64 numbers, which is what
      CPython and NumPy compute with.  Rounding to [np.float32] is the
      explicit step [f32]: a store into a float32 array, and every
      arithmetic operation that NumPy (version 2, where a Python scalar
      does not widen a NumPy one) performs in float32.  Such an operation
      is the binary64 operation on the same operands rounded to float32,
      because 53 >= 2 * 24 + 2 makes the second rounding harmless;
    - [Exact]: rationals with exact arithmetic, without rounding,
      infinities or NaN: the scripts' formulas as written, an
      idealisation of what they compute.
    The fixture generators use [sqrt], [cos] and [exp]; they are embedded
    over the real numbers, with a division that is undefined at zero.

    Exceptions are values of [exn]; a function that can raise returns a
    [result]. *)

From Stdlib Require Import ZArith QArith Qround Qabs Floats.
From Stdlib Require Import List Bool Lia Lra Lqa.
From Stdlib Require String Ascii.
From Stdlib Require Import Reals.
Import ListNotations.

Set Implicit Arguments.
Local Open Scope Z_scope.

(** ** Python exceptions *)

Inductive exn : Type :=
| OverflowError   (* int() of an infinite float, an int beyond int64 *)
| ValueError      (* int() of NaN, min() of an empty array *)
| IndexError.     (* sequence index out of range *)

Inductive result (A : Type) : Type :=
| Ok (a : A)
| Raise (e : exn).

Arguments Ok {A} a.
Arguments Raise {A} e.

Definition bind {A B : Type} (r : result A) (k : A -> result B) : result B :=
  match r with
  | Ok a => k a
  | Raise e => Raise e
  end.

Notation "x <- r ;; k" := (bind r (fun x => k))
  (at level 61, r at next level, right associativity).

Fixpoint mapM {A B : Type} (f : A -> result B) (l : list A) : result (list B) :=
  match l with
  | [] => Ok []
  | a :: l' => b <- f a ;; bs <- mapM f l' ;; Ok (b :: bs)
  end.

(** ** Sequences *)

(** [range(n)]: the [k] integers from [i] on, with [i = 0] and [k = n]. *)
Fixpoint range_from (i : Z) (k : nat) : list Z :=
  match k with
  | O => []
  | S k' => i :: range_from (i + 1) k'
  end.

Definition range (n : Z) : list Z := range_from 0 (Z.to_nat n).

(** [len(a)] *)
Definition len {A : Type} (a : list A) : Z := Z.of_nat (length a).

(** [a[i]] for a Python list or a one-dimensional NumPy array: a negative
    index counts from the end, anything outside [-len(a), len(a))] raises
    [IndexError]. *)
Definition getitem {A : Type} (a : list A) (i : Z) : result A :=
  let j := if i <? 0 then i + len a else i in
  if (0 <=? j) && (j <? len a)
  then match nth_error a (Z.to_nat j) with
       | Some v => Ok v
       | None => Raise IndexError
       end
  else Raise IndexError.

(** [a[i] = v] on an array allocated beforehand (in range in every use). *)
Fixpoint setitem {A : Type} (a : list A) (i : nat) (v : A) : list A :=
  match a, i with
  | [], _ => []
  | _ :: a', O => v :: a'
  | x :: a', S i' => x :: setitem a' i' v
  end.

(** ** Floating-point scalars *)

Class PyFloat (F : Type) : Type := {
  of_Z : Z -> F;                 (* an int used where a float is expected *)
  lit : Q -> F;                  (* a decimal literal such as 0.5 *)
  fneg : F -> F;
  fadd : F -> F -> F;
  fsub : F -> F -> F;
  fmul : F -> F -> F;
  fdiv : F -> F -> F;
  fltb : F -> F -> bool;         (* x < y *)
  fleb : F -> F -> bool;         (* x <= y *)
  is_nan : F -> bool;
  py_int : F -> result Z;        (* int(x): truncation toward zero *)
  f32 : F -> F;                  (* a store into an np.float32 array *)
  np_pi : F                      (* np.pi *)
}.

(** *** Exact arithmetic *)

Module Exact.

(** Truncation toward zero. *)
Definition trunc (x : Q) : Z := Z.quot (Qnum x) (Z.pos (Qden x)).

(** [np.pi] is the binary64 number 0x1.921fb54442d18p+1. *)
Definition pi : Q := 884279719003555 # 281474976710656.

#[global] Instance num : PyFloat Q := {|
  of_Z := inject_Z;
  lit := fun q => q;
  fneg := Qopp;
  fadd := Qplus;
  fsub := Qminus;
  fmul := Qmult;
  fdiv := Qdiv;
  fltb := fun x y => negb (Qle_bool y x);
  fleb := Qle_bool;
  is_nan := fun _ => false;
  py_int := fun x => Ok (trunc x);
  f32 := fun x => x;
  np_pi := pi
|}.

End Exact.

(** *** IEEE-754 binary64 *)

Module Binary64.

(** A Python int as a float (exact below [2^53] in absolute value). *)
Definition of_int (z : Z) : float :=
  if z <? 0 then PrimFloat.opp (PrimFloat.of_uint63 (Uint63.of_Z (- z)))
  else PrimFloat.of_uint63 (Uint63.of_Z z).

(** A decimal literal [n/d] with [n] and [d] exact: the quotient, rounded
    once, is the binary64 number nearest to the literal. *)
Definition of_literal (q : Q) : float :=
  PrimFloat.div (of_int (Qnum q)) (of_int (Z.pos (Qden q))).

(** [int(x)]: [OverflowError] on an infinity, [ValueError] on a NaN. *)
Definition to_int (x : float) : result Z :=
  match Prim2SF x with
  | S754_zero _ => Ok 0
  | S754_infinity _ => Raise OverflowError
  | S754_nan => Raise ValueError
  | S754_finite s m e =>
      let a := if 0 <=? e then Z.shiftl (Z.pos m) e
               else Z.shiftr (Z.pos m) (- e) in
      Ok (if s then - a else a)
  end.

(** Rounding to binary32 (24-bit significand, exponents up to 128), to
    nearest with ties to even; the result is again a binary64 number. *)
Definition to_float32 (x : float) : float :=
  match Prim2SF x with
  | S754_finite s m e => SF2Prim (binary_round 24 128 s m e)
  | _ => x
  end.

#[global] Instance num : PyFloat float := {|
  of_Z := of_int;
  lit := of_literal;
  fneg := PrimFloat.opp;
  fadd := PrimFloat.add;
  fsub := PrimFloat.sub;
  fmul := PrimFloat.mul;
  fdiv := PrimFloat.div;
  fltb := PrimFloat.ltb;
  fleb := PrimFloat.leb;
  is_nan := PrimFloat.is_nan;
  py_int := to_int;
  f32 := to_float32;
  np_pi := 0x1.921fb54442d18p+1%float
|}.

End Binary64.

(** ** The grid and the sampler: [scripts/temp-to-png.py]

    [test/temp-to-png.py] defines the same constants and the same
    [generate_gaussian_lats], [generate_ring_offsets] and [find_ring]; its
    [get_temp] is [get_value] under another name. *)

Module TempToPng.

Definition WIDTH : Z := 1024.
Definition HEIGHT : Z := 512.
Definition N : Z := 1280.
Definition NUM_RINGS : Z := 2 * N.

(** [offsets = np.zeros(NUM_RINGS, dtype=np.uint32)], then one pass that
    stores the running total before adding the ring's point count. *)
Definition ring_offsets_step (st : list Z * Z) (i : Z) : list Z * Z :=
  let '(offsets, cumulative) := st in
  let offsets := setitem offsets (Z.to_nat i) (cumulative mod 2 ^ 32) in
  let ring_from_pole := if i <? N then i + 1 else NUM_RINGS - i in
  let points_in_ring := 4 * ring_from_pole + 16 in
  (offsets, cumulative + points_in_ring).

Definition generate_ring_offsets : list Z :=
  fst (fold_left ring_offsets_step (range NUM_RINGS)
         (repeat 0 (Z.to_nat NUM_RINGS), 0)).

Section Scalars.

Context {F : Type} {num : PyFloat F}.

(** [np.radians(x)]: NumPy multiplies by the constant [pi/180]. *)
Definition np_radians (x : F) : F := fmul x (fdiv np_pi (of_Z 180)).

(** [lats = np.zeros(NUM_RINGS, dtype=np.float32)], filled ring by ring. *)
Definition gaussian_lats_step (lats : list F) (i : Z) : list F :=
  let lat_deg :=
    fsub (of_Z 90)
         (fdiv (fmul (fadd (of_Z i) (lit 0.5)) (of_Z 180)) (of_Z NUM_RINGS)) in
  setitem lats (Z.to_nat i) (f32 (np_radians lat_deg)).

Definition generate_gaussian_lats : list F :=
  fold_left gaussian_lats_step (range NUM_RINGS)
    (repeat (of_Z 0) (Z.to_nat NUM_RINGS)).

(** NumPy's order on floats, used by its sorts and searches: [<], with
    NaN after every number. *)
Definition np_less (a b : F) : bool :=
  fltb a b || (is_nan b && negb (is_nan a)).

(** [np.searchsorted(a, v)] with the default [side='left']: NumPy's binary
    search between [lo] and [hi], which halves the interval while it is not
    empty.  [fuel] bounds the number of halvings. *)
Fixpoint binsearch_left (fuel : nat) (a : list F) (v : F) (lo hi : nat) : nat :=
  match fuel with
  | O => lo
  | S fuel' =>
      if (lo <? hi)%nat then
        let mid := (lo + (hi - lo) / 2)%nat in
        if np_less (nth mid a (of_Z 0)) v
        then binsearch_left fuel' a v (S mid) hi
        else binsearch_left fuel' a v lo mid
      else lo
  end.

Definition searchsorted (a : list F) (v : F) : Z :=
  Z.of_nat (binsearch_left (length a) a v 0 (length a)).

(** [find_ring(lat, lats)] *)
Definition find_ring (lat : F) (lats : list F) : Z :=
  searchsorted (map fneg lats) (fneg lat).

(** The ring chosen by the first two lines of [get_value]. *)
Definition clamped_ring (lat : F) (lats : list F) : Z :=
  Z.min (find_ring lat lats) (NUM_RINGS - 1).

(** The point count of a ring, as [get_value] recomputes it. *)
Definition ring_points (ring : Z) : Z :=
  let ring_from_pole := if ring <? N then ring + 1 else NUM_RINGS - ring in
  4 * ring_from_pole + 16.

(** [k % n_points] for the Python int [k] that [int(...)] returned.  When
    [n_points] is an [np.int64], NumPy converts [k] to [int64] first and
    raises [OverflowError] if it does not fit; when [n_points] is a Python
    int the remainder is Python's own, on integers of any size.  The divisor
    is positive in every use. *)
Definition fits_int64 (k : Z) : bool := (- 2 ^ 63 <=? k) && (k <? 2 ^ 63).

Definition py_mod (k n_points : Z) (n_is_int64 : bool) : result Z :=
  if n_is_int64 && negb (fits_int64 k) then Raise OverflowError
  else Ok (k mod n_points).

(** [min(ring, NUM_RINGS - 1)] returns its first argument, the [np.int64]
    of [np.searchsorted], unless the Python int [NUM_RINGS - 1] is smaller;
    [ring_from_pole] and [n_points] inherit the type. *)
Definition ring_is_int64 (found : Z) : bool := negb (NUM_RINGS - 1 <? found).

(** [lon if lon >= 0 else lon + 2 * np.pi] *)
Definition lon_norm (lon : F) : F :=
  if fleb (of_Z 0) lon then lon else fadd lon (fmul (of_Z 2) np_pi).

(** The argument of [int(...)] in [get_value]. *)
Definition lon_scaled (lon : F) (n_points : Z) : F :=
  fmul (fdiv (lon_norm lon) (fmul (of_Z 2) np_pi)) (of_Z n_points).

(** [int(lon_norm / (2 * np.pi) * n_points) % n_points] *)
Definition lon_index (lon : F) (n_points : Z) (n_is_int64 : bool)
  : result Z :=
  k <- py_int (lon_scaled lon n_points) ;;
  py_mod k n_points n_is_int64.

(** [get_value(lat, lon, data, lats, offsets)] *)
Definition get_value (lat lon : F) (data lats : list F) (offsets : list Z)
  : result F :=
  let found := find_ring lat lats in
  let ring := Z.min found (NUM_RINGS - 1) in
  let ring_from_pole := if ring <? N then ring + 1 else NUM_RINGS - ring in
  let n_points := 4 * ring_from_pole + 16 in
  let lon_norm := if fleb (of_Z 0) lon then lon
                  else fadd lon (fmul (of_Z 2) np_pi) in
  k <- py_int (fmul (fdiv lon_norm (fmul (of_Z 2) np_pi)) (of_Z n_points)) ;;
  lon_idx <- py_mod k n_points (ring_is_int64 found) ;;
  off <- getitem offsets ring ;;
  let idx := off + lon_idx in
  if idx <? len data then getitem data idx else Ok (of_Z 0).

(** *** The reprojection of [main]

    [main] reads the file named on the command line into [data], renders
    [WIDTH] x [HEIGHT] pixels and saves the image.  The raster size is a
    parameter of the passes below; [main_image] fixes it as [main] does. *)

(** The latitude of pixel row [y]: [(0.5 - y / HEIGHT) * np.pi]. *)
Definition pixel_lat (height y : Z) : F :=
  fmul (fsub (lit 0.5) (fdiv (of_Z y) (of_Z height))) np_pi.

(** The longitude of pixel column [x]: [(x / WIDTH) * 2 * np.pi - np.pi]. *)
Definition pixel_lon (width x : Z) : F :=
  fsub (fmul (fmul (fdiv (of_Z x) (of_Z width)) (of_Z 2)) np_pi) np_pi.

(** First pass: [values[y, x] = get_value(lat, lon, data, lats, offsets)],
    a [HEIGHT] x [WIDTH] array of [np.float32]. *)
Definition first_pass (width height : Z) (data lats : list F)
  (offsets : list Z) : result (list (list F)) :=
  mapM (fun y =>
    let lat := pixel_lat height y in
    mapM (fun x =>
      let lon := pixel_lon width x in
      v <- get_value lat lon data lats offsets ;;
      Ok (f32 v)) (range width)) (range height).

(** [np.min(a)] and [np.max(a)]: [ValueError] on an empty array; a NaN, once
    met, is the result. *)
Definition np_min (a : list F) : result F :=
  match a with
  | [] => Raise ValueError
  | x :: a' =>
      Ok (fold_left (fun m v => if is_nan m then m else
                                if is_nan v then v else
                                if fltb v m then v else m) a' x)
  end.

Definition np_max (a : list F) : result F :=
  match a with
  | [] => Raise ValueError
  | x :: a' =>
      Ok (fold_left (fun m v => if is_nan m then m else
                                if is_nan v then v else
                                if fltb m v then v else m) a' x)
  end.

(** [data_max - data_min if data_max > data_min else 1] *)
Definition data_range_of (data_min data_max : F) : F :=
  if fltb data_min data_max then fsub data_max data_min else of_Z 1.

(** One pixel of the second pass:
    [gray = int(255 * (val - data_min) / data_range)], then
    [max(0, min(255, gray))].  [val] is an [np.float32], [data_min] and
    [data_range] are Python floats (or the int 1): NumPy converts them to
    float32 and computes the difference, the product and the quotient in
    float32. *)
Definition gray_level (val data_min data_range : F) : result Z :=
  let diff := f32 (fsub val (f32 data_min)) in
  let scaled := f32 (fmul (of_Z 255) diff) in
  gray <- py_int (f32 (fdiv scaled (f32 data_range))) ;;
  Ok (Z.max 0 (Z.min 255 gray)).

(** The scaling of [main] from the reprojected buffer on: observed range,
    then the second pass.  The image is returned row by row. *)
Definition second_pass (values : list (list F)) : result (list (list Z)) :=
  data_min <- np_min (concat values) ;;
  data_max <- np_max (concat values) ;;
  let data_range := data_range_of data_min data_max in
  mapM (mapM (fun val => gray_level val data_min data_range)) values.

(** [main] after [np.fromfile]: the raw range (printed), the tables, the
    two passes. *)
Definition render (width height : Z) (data : list F)
  : result (list (list Z)) :=
  raw_min <- np_min data ;;
  raw_max <- np_max data ;;
  let lats := generate_gaussian_lats in
  let offsets := generate_ring_offsets in
  values <- first_pass width height data lats offsets ;;
  second_pass values.

Definition main_image (data : list F) : result (list (list Z)) :=
  render WIDTH HEIGHT data.

End Scalars.

End TempToPng.

(** ** The temperature colour map: [test/temp-to-png.py] *)

Module TempToPngHue.

Import TempToPng.

Section Scalars.

Context {F : Type} {num : PyFloat F}.

(** [get_temp(lat, lon, data, lats, offsets)] *)
Definition get_temp (lat lon : F) (data lats : list F) (offsets : list Z)
  : result F :=
  let found := find_ring lat lats in
  let ring := Z.min found (NUM_RINGS - 1) in
  let ring_from_pole := if ring <? N then ring + 1 else NUM_RINGS - ring in
  let n_points := 4 * ring_from_pole + 16 in
  let lon_norm := if fleb (of_Z 0) lon then lon
                  else fadd lon (fmul (of_Z 2) np_pi) in
  k <- py_int (fmul (fdiv lon_norm (fmul (of_Z 2) np_pi)) (of_Z n_points)) ;;
  lon_idx <- py_mod k n_points (ring_is_int64 found) ;;
  off <- getitem offsets ring ;;
  let idx := off + lon_idx in
  if idx <? len data then getitem data idx else Ok (of_Z 0).

(** Python's two-argument [min] and [max]: the first argument unless the
    second is strictly smaller (larger). *)
Definition py_min (a b : F) : F := if fltb b a then b else a.
Definition py_max (a b : F) : F := if fltb a b then b else a.

(** [t = max(0, min(1, (temp_c + 50) / 100))].  [temp_c] is an
    [np.float32] read from [data] (or the int 0), so the sum and the quotient
    are float32 operations. *)
Definition temp_fraction (temp_c : F) : F :=
  py_max (of_Z 0)
    (py_min (of_Z 1) (f32 (fdiv (f32 (fadd temp_c (of_Z 50))) (of_Z 100)))).

(** [temp_to_rgb(temp_c)]: every operation on [t] is a float32 operation;
    where an operand is the int 0 or 1 the result is exact either way. *)
Definition temp_to_rgb (temp_c : F) : result (Z * Z * Z) :=
  let t := py_max (of_Z 0)
             (py_min (of_Z 1)
                (f32 (fdiv (f32 (fadd temp_c (of_Z 50))) (of_Z 100)))) in
  let '(r, g, b) :=
    if fltb t (lit 0.25) then
      (of_Z 0, f32 (fmul t (of_Z 4)), of_Z 1)
    else if fltb t (lit 0.5) then
      (of_Z 0, of_Z 1,
       f32 (fsub (of_Z 1) (f32 (fmul (f32 (fsub t (lit 0.25))) (of_Z 4)))))
    else if fltb t (lit 0.75) then
      (f32 (fmul (f32 (fsub t (lit 0.5))) (of_Z 4)), of_Z 1, of_Z 0)
    else
      (of_Z 1,
       f32 (fsub (of_Z 1) (f32 (fmul (f32 (fsub t (lit 0.75))) (of_Z 4)))),
       of_Z 0) in
  ri <- py_int (f32 (fmul r (of_Z 255))) ;;
  gi <- py_int (f32 (fmul g (of_Z 255))) ;;
  bi <- py_int (f32 (fmul b (of_Z 255))) ;;
  Ok (ri, gi, bi).

(** The pixel loop of [main]: [pixels[x, y] = temp_to_rgb(temp)], returned
    row by row. *)
Definition render_hue (width height : Z) (data : list F)
  : result (list (list (Z * Z * Z))) :=
  let lats := generate_gaussian_lats in
  let offsets := generate_ring_offsets in
  mapM (fun y =>
    let lat := pixel_lat height y in
    mapM (fun x =>
      let lon := pixel_lon width x in
      temp <- get_temp lat lon data lats offsets ;;
      temp_to_rgb temp) (range width)) (range height).

Definition main_image (data : list F) : result (list (list (Z * Z * Z))) :=
  render_hue WIDTH HEIGHT data.

End Scalars.

End TempToPngHue.

(** ** [tests/scripts/generate_test_bins.py] *)

Module TestBins.

Definition O1280_POINTS : Z := 6599680.

(** The array that [generate_uniform(value, filename, description)] writes:
    [np.full(O1280_POINTS, value, dtype=np.float32)]. *)
Definition generate_uniform {F : Type} {num : PyFloat F} (value : F) : list F :=
  repeat (f32 value) (Z.to_nat O1280_POINTS).

Import String.

(** The two files that [main] writes, by name:
    [generate_uniform(55.0, ...)] and [generate_uniform(-20.0, ...)]. *)
Definition main_fixtures {F : Type} {num : PyFloat F}
  : list (string * list F) :=
  [("uniform-55.bin"%string, generate_uniform (lit 55));
   ("uniform-minus20.bin"%string, generate_uniform (fneg (lit 20)))].

End TestBins.

(** ** The command line of both converters

    [main] starts the same way in [scripts/temp-to-png.py] and in
    [test/temp-to-png.py]; only the usage text differs. *)

Module Cli.

Import String.
Local Open Scope string_scope.

(** [s[n:]] *)
Fixpoint drop (n : nat) (s : string) : string :=
  match n, s with
  | O, _ => s
  | S n', EmptyString => EmptyString
  | S n', String _ s' => drop n' s'
  end.

(** [s.replace(old, new)] for a non-empty [old], scanning from the left:
    where [old] starts, [new] is emitted and the rest of that occurrence is
    skipped ([skip] counts the characters still to skip). *)
Fixpoint replace_scan (old new : string) (skip : nat) (s : string) : string :=
  match s with
  | EmptyString => EmptyString
  | String c s' =>
      match skip with
      | S k => replace_scan old new k s'
      | O =>
          if prefix old s
          then new ++ replace_scan old new (String.length old - 1) s'
          else String c (replace_scan old new O s')
      end
  end.

(** With an empty [old], [new] goes before every character and at the end. *)
Fixpoint intersperse (new s : string) : string :=
  match s with
  | EmptyString => new
  | String c s' => new ++ String c (intersperse new s')
  end.

Definition str_replace (old new s : string) : string :=
  match old with
  | EmptyString => intersperse new s
  | _ => replace_scan old new O s
  end.

Definition usage_scripts : string :=
  "Usage: python temp-to-png.py <input.bin> [output.png]".

Definition usage_test : string :=
  "Usage: python temp-to-png.py <input.temp.bin> [output.png]".

(** What the first lines of [main] leave behind: either the process has
    exited, with the lines written to each stream and its exit status, or
    the two file names are set. *)
Inductive started : Type :=
| Exited (stdout stderr : list string) (status : Z)
| Files (input_file output_file : string).

(** [main] up to the assignment of [output_file]; [argv] is [sys.argv]
    and [print] writes to standard output. *)
Definition main_args (usage : string) (argv : list string) : result started :=
  if (len argv <? 2)%Z then Ok (Exited [usage] [] 1)
  else
    input_file <- getitem argv 1 ;;
    output_file <- (if (2 <? len argv)%Z then getitem argv 2
                    else Ok (str_replace ".bin" ".png" input_file)) ;;
    Ok (Files input_file output_file).

(** The spec's default output name: the [.bin] suffix replaced by [.png]. *)
Definition replace_bin_suffix (stem : string) : string := stem ++ ".png".

End Cli.

(** ** Real-number helpers for the fixture generators *)

Module RealNum.

Local Open Scope R_scope.

Definition Rltb (a b : R) : bool := if Rlt_dec a b then true else false.
Definition Rleb (a b : R) : bool := if Rle_dec a b then true else false.

(** A quotient of floats is not finite when the divisor is zero; [None]
    stands for a NaN or an infinity. *)
Definition np_div (a b : R) : option R :=
  if Req_dec_T b 0 then None else Some (a / b).

Definition obind {A B : Type} (o : option A) (k : A -> option B) : option B :=
  match o with
  | Some a => k a
  | None => None
  end.

(** [np.radians(x)] *)
Definition np_radians (x : R) : R := x * (PI / 180).

(** The two [np.where] lines that wrap a longitude difference. *)
Definition wrap_dlon (dlon : R) : R :=
  let dlon := if Rltb PI dlon then dlon - 2 * PI else dlon in
  if Rltb dlon (- PI) then dlon + 2 * PI else dlon.

End RealNum.

Notation "x <~ o ;; k" := (RealNum.obind o (fun x => k))
  (at level 61, o at next level, right associativity).

(** ** The grid of the fixture generators

    [generate_gaussian_grid] is the same function in
    [generate_wind_fixtures.py] and [generate_pressure_fixtures.py]. *)

Module FixtureGrid.

Import RealNum.
Local Open Scope R_scope.

Definition N : Z := 1280.
Definition NUM_RINGS : Z := (2 * N)%Z.
Definition O1280_POINTS : Z := 6599680%Z.

(** The points of one ring, west to east, each with the ring's latitude. *)
Definition grid_ring (ring : Z) : list (R * R) :=
  let lat_deg := 90 - (IZR ring + 0.5) * 180 / IZR NUM_RINGS in
  let lat_rad := np_radians lat_deg in
  let ring_from_pole :=
    (if ring <? N then ring + 1 else NUM_RINGS - ring)%Z in
  let n_points := (4 * ring_from_pole + 16)%Z in
  map (fun i => let lon_rad := (2 * PI * IZR i) / IZR n_points in
                (lat_rad, lon_rad)) (range n_points).

(** [generate_gaussian_grid()]: the arrays [lats] and [lons], filled ring
    after ring from index 0. *)
Definition generate_gaussian_grid : list R * list R :=
  List.split (flat_map grid_ring (range NUM_RINGS)).

End FixtureGrid.

(** ** [tests/scripts/generate_wind_fixtures.py] *)

Module WindFixtures.

Import RealNum.
Local Open Scope R_scope.

(** The speed of the wind at distance [dist] from the centre: zero, then
    the assignment under the mask [inside_core], then the one under
    [between]. *)
Definition inside_core_speed (dist max_wind core_radius : R) : option R :=
  q <~ np_div dist core_radius ;;
  Some (max_wind * q).

Definition between_speed (dist max_wind core_radius outer_radius : R)
  : option R :=
  q <~ np_div (dist - core_radius) (outer_radius - core_radius) ;;
  let decay := 1 - q in
  Some (max_wind * decay).

Definition wind_speed (dist max_wind core_radius outer_radius : R)
  : option R :=
  let speed := 0 in
  let inside_core := Rltb dist core_radius in
  speed <~ (if inside_core then inside_core_speed dist max_wind core_radius
            else Some speed) ;;
  let between := Rleb core_radius dist && Rltb dist outer_radius in
  speed <~ (if between
            then between_speed dist max_wind core_radius outer_radius
            else Some speed) ;;
  Some speed.

(** The distance of a grid point from the centre. *)
Definition center_distance (lat lon center_lat center_lon : R) : R :=
  let dlat := lat - center_lat in
  let dlon := lon - center_lon in
  let dlon := wrap_dlon dlon in
  let dlon_scaled := dlon * cos lat in
  sqrt (dlat ^ 2 + dlon_scaled ^ 2).

(** [generate_cyclone] at one grid point: the pair [(u, v)]. *)
Definition cyclone_point
  (lat lon center_lat center_lon max_wind core_radius outer_radius : R)
  : option (R * R) :=
  let dlat := lat - center_lat in
  let dlon := lon - center_lon in
  let dlon := wrap_dlon dlon in
  let dlon_scaled := dlon * cos lat in
  let dist := sqrt (dlat ^ 2 + dlon_scaled ^ 2) in
  speed <~ wind_speed dist max_wind core_radius outer_radius ;;
  let dist_safe := Rmax dist 1e-6 in
  tang_lat <~ np_div (- dlon_scaled) dist_safe ;;
  tang_lon <~ np_div dlat dist_safe ;;
  let radial_strength := 0.3 in
  rad_lat <~ np_div (- dlat) dist_safe ;;
  rad_lon <~ np_div (- dlon_scaled) dist_safe ;;
  let u := speed * (tang_lon + radial_strength * rad_lon) in
  let v := speed * (tang_lat + radial_strength * rad_lat) in
  Some (u, v).

(** [generate_cyclone(lats, lons, center_lat, center_lon, max_wind,
    core_radius, outer_radius)], element by element. *)
Definition generate_cyclone (lats lons : list R)
  (center_lat center_lon max_wind core_radius outer_radius : R)
  : list (option (R * R)) :=
  map (fun p => cyclone_point (fst p) (snd p) center_lat center_lon
                  max_wind core_radius outer_radius)
      (combine lats lons).

(** The defaults of [generate_cyclone], as [main] calls it. *)
Definition default_cyclone (lats lons : list R) : list (option (R * R)) :=
  generate_cyclone lats lons 0.0 0.0 25.0 0.1 0.8.

End WindFixtures.

(** ** [tests/scripts/generate_pressure_fixtures.py] *)

Module PressureFixtures.

Import RealNum.
Local Open Scope R_scope.

Definition LOW_LAT : R := 10.0.
Definition LOW_LON : R := 10.0.
Definition HIGH_LAT : R := -10.0.
Definition HIGH_LON : R := -10.0.
Definition BASE_PRESSURE : R := 101200.0.
Definition LOW_PRESSURE : R := 97600.0.
Definition HIGH_PRESSURE : R := 104800.0.
Definition INFLUENCE_RADIUS : R := 0.5.
Definition NOISE_AMPLITUDE : R := 100.0.

(** The local function [angular_distance(lat1, lon1, lat2, lon2)]. *)
Definition angular_distance (lat1 lon1 lat2 lon2 : R) : R :=
  let dlat := lat1 - lat2 in
  let dlon := lon1 - lon2 in
  let dlon := wrap_dlon dlon in
  let dlon_scaled := dlon * cos lat1 in
  sqrt (dlat ^ 2 + dlon_scaled ^ 2).

(** [generate_pressure] at one grid point, up to [pressure = BASE_PRESSURE
    + low_anomaly + high_anomaly]. *)
Definition base_plus_anomalies (lat lon : R) : R :=
  let low_lat_rad := np_radians LOW_LAT in
  let low_lon_rad := np_radians LOW_LON in
  let high_lat_rad := np_radians HIGH_LAT in
  let high_lon_rad := np_radians HIGH_LON in
  let low_lat_rad_mirror := - low_lat_rad in
  let low_lon_rad_mirror := low_lon_rad + PI in
  let high_lat_rad_mirror := - high_lat_rad in
  let high_lon_rad_mirror := high_lon_rad + PI in
  let dist_to_low := angular_distance lat lon low_lat_rad low_lon_rad in
  let dist_to_high := angular_distance lat lon high_lat_rad high_lon_rad in
  let dist_to_low_mirror :=
    angular_distance lat lon low_lat_rad_mirror low_lon_rad_mirror in
  let dist_to_high_mirror :=
    angular_distance lat lon high_lat_rad_mirror high_lon_rad_mirror in
  let sigma := INFLUENCE_RADIUS / 2 in
  let low_influence := exp (- 0.5 * (dist_to_low / sigma) ^ 2) in
  let high_influence := exp (- 0.5 * (dist_to_high / sigma) ^ 2) in
  let low_influence_mirror :=
    exp (- 0.5 * (dist_to_low_mirror / sigma) ^ 2) in
  let high_influence_mirror :=
    exp (- 0.5 * (dist_to_high_mirror / sigma) ^ 2) in
  let low_anomaly :=
    (LOW_PRESSURE - BASE_PRESSURE) * (low_influence + low_influence_mirror) in
  let high_anomaly :=
    (HIGH_PRESSURE - BASE_PRESSURE)
    * (high_influence + high_influence_mirror) in
  BASE_PRESSURE + low_anomaly + high_anomaly.

(** [np.clip(x, a_min, a_max)] *)
Definition np_clip (x a_min a_max : R) : R := Rmin a_max (Rmax x a_min).

(** [generate_pressure(lats, lons)].  [noise] is the array that
    [np.random.uniform(-NOISE_AMPLITUDE, NOISE_AMPLITUDE, len(pressure))]
    returns after [np.random.seed(42)]; the generator is NumPy's, so the
    array is a parameter here. *)
Definition generate_pressure (lats lons noise : list R) : list R :=
  map (fun p => np_clip (base_plus_anomalies (fst (fst p)) (snd (fst p))
                         + snd p) 97600 104800)
      (combine (combine lats lons) noise).

(** *** The spec's reading of the same field *)

(** The longitude difference wrapped into the half-open interval
    [(-PI, PI]], for a difference of at most three half-turns. *)
Definition wrap_half_open (dlon : R) : R :=
  if Rltb PI dlon then dlon - 2 * PI
  else if Rleb dlon (- PI) then dlon + 2 * PI
  else dlon.

Definition spec_distance (lat lon center_lat center_lon : R) : R :=
  let dlat := lat - center_lat in
  let dlon := wrap_half_open (lon - center_lon) in
  sqrt (dlat ^ 2 + (dlon * cos lat) ^ 2).

(** One Gaussian-decayed anomaly. *)
Definition spec_anomaly (target lat lon center_lat center_lon : R) : R :=
  let sigma := INFLUENCE_RADIUS / 2 in
  (target - BASE_PRESSURE)
  * exp (- 0.5 * (spec_distance lat lon center_lat center_lon / sigma) ^ 2).

(** Base pressure plus the anomalies of the two centres and of their
    antipodal mirrors. *)
Definition spec_pressure (lat lon : R) : R :=
  let low_lat := np_radians LOW_LAT in
  let low_lon := np_radians LOW_LON in
  let high_lat := np_radians HIGH_LAT in
  let high_lon := np_radians HIGH_LON in
  BASE_PRESSURE
  + (spec_anomaly LOW_PRESSURE lat lon low_lat low_lon
     + spec_anomaly LOW_PRESSURE lat lon (- low_lat) (low_lon + PI)
     + spec_anomaly HIGH_PRESSURE lat lon high_lat high_lon
     + spec_anomaly HIGH_PRESSURE lat lon (- high_lat) (high_lon + PI)).

(** The longitudes of the four sources: the two centres and their
    mirrors. *)
Definition source_longitudes : list R :=
  [np_radians LOW_LON; np_radians HIGH_LON;
   np_radians LOW_LON + PI; np_radians HIGH_LON + PI].

End PressureFixtures.
(** * Verification *)

(** ** Definitions used in the statements *)

Definition sum_Z (l : list Z) : Z := fold_right Z.add 0 l.

(** The running totals of [l] before each element, starting from [acc]. *)
Fixpoint prefix_sums (acc : Z) (l : list Z) : list Z :=
  match l with
  | [] => []
  | x :: l' => acc :: prefix_sums (acc + x) l'
  end.

(** The number of grid points, [O1280_POINTS] in the fixture generators. *)
Definition totalPoints : Z := 6599680.

(** [pointCount(ring) = 4 * ringFromPole + 16] as the spec writes it. *)
Definition pointCount (index : Z) : Z :=
  let ringFromPole :=
    if index <? TempToPng.N then index + 1 else TempToPng.NUM_RINGS - index in
  4 * ringFromPole + 16.

Section Checks.

Context {F : Type} {num : PyFloat F}.

(** Each entry is strictly below the one before it. *)
Fixpoint strictly_decreasing (l : list F) : bool :=
  match l with
  | x :: ((y :: _) as l') => fltb y x && strictly_decreasing l'
  | _ => true
  end.

(** The latitude stored for ring [i]. *)
Definition ring_latitude (i : Z) : F :=
  f32 (TempToPng.np_radians
         (fsub (of_Z 90)
            (fdiv (fmul (fadd (of_Z i) (lit 0.5)) (of_Z 180))
               (of_Z TempToPng.NUM_RINGS)))).

(** The laws of the order that the ring locator relies on: [<] is a strict
    order that never holds of a NaN, negation reverses it, and on numbers
    [<=] is the complement of the converse of [<]. *)
Definition ordered_scalars : Prop :=
  (forall a : F, fltb a a = false) /\
  (forall a b c : F, fltb a b = true -> fltb b c = true -> fltb a c = true) /\
  (forall a b : F, fltb (fneg a) (fneg b) = fltb b a) /\
  (forall a : F, is_nan (fneg a) = is_nan a) /\
  (forall a b : F, fltb a b = true -> is_nan a = false /\ is_nan b = false) /\
  (forall a b : F, is_nan a = false -> is_nan b = false ->
     fleb a b = negb (fltb b a)) /\
  (forall a b : F, is_nan b = true -> fleb a b = false).

End Checks.

(** The nearest binary64 number to [1e308]. *)
Definition huge_longitude : float := 0x1.1ccf385ebc8ap+1023%float.

(** [1e19], a binary64 number: [int] of it is beyond [int64]. *)
Definition big_longitude : float := 1e19%float.

(** [np.pi / 2] and the largest binary64 number below [np.pi]. *)
Definition half_pi : float := fdiv np_pi (of_Z 2).
Definition pi_below : float := PrimFloat.next_down np_pi.

(** A result that is the integer [z]. *)
Definition is_ok (r : result Z) (z : Z) : bool :=
  match r with
  | Ok k => k =? z
  | Raise _ => false
  end.

(** On a ring, longitude [-np.pi] falls on point [n/2] and the last
    longitude before [np.pi] on point [n/2 - 1], whatever the integer type
    of [n]. *)
Definition seam_check (ring : Z) : bool :=
  let n := pointCount ring in
  forallb (fun b =>
    is_ok (TempToPng.lon_index (F := float) (fneg np_pi) n b) (n / 2)
    && is_ok (TempToPng.lon_index pi_below n b) (n / 2 - 1)) [true; false].

Section Ramp.

Context {F : Type} {num : PyFloat F}.

(** The colour of [temp_to_rgb] as a function of the fraction [t]. *)
Definition ramp (t : F) : result (Z * Z * Z) :=
  let '(r, g, b) :=
    if fltb t (lit 0.25) then
      (of_Z 0, f32 (fmul t (of_Z 4)), of_Z 1)
    else if fltb t (lit 0.5) then
      (of_Z 0, of_Z 1,
       f32 (fsub (of_Z 1) (f32 (fmul (f32 (fsub t (lit 0.25))) (of_Z 4)))))
    else if fltb t (lit 0.75) then
      (f32 (fmul (f32 (fsub t (lit 0.5))) (of_Z 4)), of_Z 1, of_Z 0)
    else
      (of_Z 1,
       f32 (fsub (of_Z 1) (f32 (fmul (f32 (fsub t (lit 0.75))) (of_Z 4)))),
       of_Z 0) in
  ri <- py_int (f32 (fmul r (of_Z 255))) ;;
  gi <- py_int (f32 (fmul g (of_Z 255))) ;;
  bi <- py_int (f32 (fmul b (of_Z 255))) ;;
  Ok (ri, gi, bi).

End Ramp.

(** ** Sequences and the error monad *)

Lemma ok_injective {A : Type} (a b : A) : Ok a = Ok b -> a = b.
Proof. intros H. now inversion H. Qed.

Lemma range_from_length (k : nat) : forall i, length (range_from i k) = k.
Proof. induction k as [|k IH]; intros i; simpl; [reflexivity|now rewrite IH]. Qed.

Lemma range_from_nth (k : nat) : forall i j, (j < k)%nat ->
  nth j (range_from i k) 0 = i + Z.of_nat j.
Proof.
  induction k as [|k IH]; intros i j Hj; [lia|].
  destruct j as [|j]; simpl; [lia|]. rewrite IH by lia. lia.
Qed.

Lemma in_range_from (k : nat) : forall i x,
  In x (range_from i k) <-> i <= x < i + Z.of_nat k.
Proof.
  induction k as [|k IH]; intros i x; simpl; [lia|].
  rewrite IH. lia.
Qed.

Lemma in_range (n x : Z) : In x (range n) <-> 0 <= x < n.
Proof. unfold range. rewrite in_range_from. lia. Qed.

Lemma range_length (n : Z) : 0 <= n -> len (range n) = n.
Proof. intros Hn. unfold len, range. rewrite range_from_length. lia. Qed.

Lemma range_from_snoc (k : nat) : forall i,
  range_from i (S k) = range_from i k ++ [i + Z.of_nat k].
Proof.
  induction k as [|k IH]; intros i.
  - simpl. now rewrite Z.add_0_r.
  - change (range_from i (S (S k))) with (i :: range_from (i + 1) (S k)).
    rewrite IH. simpl. do 3 f_equal. lia.
Qed.

Lemma getitem_in_range {A : Type} (a : list A) (i : Z) (d : A) :
  0 <= i < len a -> getitem a i = Ok (nth (Z.to_nat i) a d).
Proof.
  intros Hi. unfold getitem.
  destruct (Z.ltb_spec i 0); [lia|].
  destruct (Z.leb_spec 0 i); [|lia].
  destruct (Z.ltb_spec i (len a)); [|lia]. simpl.
  unfold len in Hi.
  destruct (nth_error a (Z.to_nat i)) eqn:E.
  - now rewrite (nth_error_nth _ _ d E).
  - apply nth_error_None in E. lia.
Qed.

Lemma getitem_out_of_range {A : Type} (a : list A) (i : Z) :
  len a <= i \/ i < - len a -> getitem a i = Raise IndexError.
Proof.
  intros Hi. unfold getitem. unfold len in *.
  destruct (Z.ltb_spec i 0).
  - destruct (Z.leb_spec 0 (i + Z.of_nat (length a))); [lia|reflexivity].
  - destruct (Z.leb_spec 0 i); [|lia].
    destruct (Z.ltb_spec i (Z.of_nat (length a))); [lia|reflexivity].
Qed.

Lemma setitem_length {A : Type} (a : list A) : forall i v,
  length (setitem a i v) = length a.
Proof.
  induction a as [|x a IH]; intros [|i] v; simpl; auto.
Qed.

Lemma setitem_app {A : Type} (pre : list A) (x v : A) (rest : list A) :
  setitem (pre ++ x :: rest) (length pre) v = pre ++ v :: rest.
Proof. induction pre as [|p pre IH]; simpl; [reflexivity|now rewrite IH]. Qed.

Lemma mapM_ok {A B : Type} (f : A -> result B) (g : A -> B) (l : list A) :
  (forall a, In a l -> f a = Ok (g a)) -> mapM f l = Ok (map g l).
Proof.
  induction l as [|a l IH]; intros H; simpl; [reflexivity|].
  rewrite (H a) by (now left). simpl.
  rewrite IH by (intros; apply H; now right). reflexivity.
Qed.

Lemma mapM_raise {A B : Type} (f : A -> result B) (e : exn) (a : A)
  (l : list A) :
  f a = Raise e -> mapM f (a :: l) = Raise e.
Proof. intros H. simpl. now rewrite H. Qed.

Lemma map_const_repeat {A B : Type} (b : B) (l : list A) :
  map (fun _ => b) l = repeat b (length l).
Proof. induction l as [|a l IH]; simpl; [reflexivity|now rewrite IH]. Qed.

(** ** The offset table *)

Lemma pointCount_ring_points (i : Z) : TempToPng.ring_points i = pointCount i.
Proof. reflexivity. Qed.

Lemma prefix_sums_length (l : list Z) : forall acc,
  length (prefix_sums acc l) = length l.
Proof. induction l as [|x l IH]; intros acc; simpl; [reflexivity|now rewrite IH]. Qed.

Lemma prefix_sums_nth (l : list Z) : forall acc i, (i < length l)%nat ->
  nth i (prefix_sums acc l) 0 = acc + sum_Z (firstn i l).
Proof.
  induction l as [|x l IH]; intros acc i Hi; simpl in *; [lia|].
  destruct i as [|i]; simpl; [lia|].
  rewrite IH by lia. lia.
Qed.

Lemma sum_Z_app (l1 l2 : list Z) : sum_Z (l1 ++ l2) = sum_Z l1 + sum_Z l2.
Proof. induction l1 as [|x l1 IH]; simpl; [reflexivity|rewrite IH; lia]. Qed.

Lemma sum_Z_nonneg (l : list Z) : Forall (fun x => 0 <= x) l -> 0 <= sum_Z l.
Proof. induction 1; simpl; lia. Qed.

(** The loop of [generate_ring_offsets], started at ring [length pre] with
    the entries [pre] already stored and [m] rings to go. *)
Lemma ring_offsets_loop (m : nat) : forall (pre : list Z) (c : Z),
  fold_left TempToPng.ring_offsets_step
    (range_from (Z.of_nat (length pre)) m) (pre ++ repeat 0 m, c)
  = (pre ++ map (fun t => t mod 2 ^ 32)
              (prefix_sums c
                 (map pointCount (range_from (Z.of_nat (length pre)) m))),
     c + sum_Z (map pointCount (range_from (Z.of_nat (length pre)) m))).
Proof.
  induction m as [|m IH]; intros pre c.
  - simpl. now rewrite Z.add_0_r.
  - cbn [range_from fold_left repeat].
    unfold TempToPng.ring_offsets_step at 2.
    rewrite Nat2Z.id, setitem_app.
    fold (pointCount (Z.of_nat (length pre))).
    change (pre ++ c mod 2 ^ 32 :: repeat 0 m)
      with (pre ++ [c mod 2 ^ 32] ++ repeat 0 m).
    rewrite app_assoc.
    replace (Z.of_nat (length pre) + 1)
      with (Z.of_nat (length (pre ++ [c mod 2 ^ 32])))
      by (rewrite length_app; simpl; lia).
    rewrite (IH (pre ++ [c mod 2 ^ 32])).
    cbn [map prefix_sums sum_Z fold_right].
    rewrite <- app_assoc. simpl. f_equal. unfold sum_Z. lia.
Qed.

Lemma ring_offsets_loop0 (m : nat) (c : Z) :
  fold_left TempToPng.ring_offsets_step (range_from 0 m) (repeat 0 m, c)
  = (map (fun t => t mod 2 ^ 32)
       (prefix_sums c (map pointCount (range_from 0 m))),
     c + sum_Z (map pointCount (range_from 0 m))).
Proof. exact (ring_offsets_loop m [] c). Qed.

Lemma ring_offsets_fill :
  TempToPng.generate_ring_offsets
  = map (fun t => t mod 2 ^ 32)
      (prefix_sums 0 (map pointCount (range TempToPng.NUM_RINGS))).
Proof.
  unfold TempToPng.generate_ring_offsets, range.
  now rewrite ring_offsets_loop0.
Qed.

Lemma pointCount_pos (i : Z) :
  0 <= i < TempToPng.NUM_RINGS -> 20 <= pointCount i <= 5136.
Proof.
  unfold pointCount, TempToPng.NUM_RINGS, TempToPng.N. intros Hi.
  destruct (Z.ltb_spec i 1280); lia.
Qed.

Lemma pointCount_multiple_of_4 (i : Z) : pointCount i = 4 * (pointCount i / 4).
Proof.
  unfold pointCount.
  set (r := if i <? TempToPng.N then i + 1 else TempToPng.NUM_RINGS - i).
  replace (4 * r + 16) with ((r + 4) * 4) by lia.
  rewrite Z.div_mul by lia. lia.
Qed.

Lemma ring_counts_nonneg (n : Z) :
  n <= TempToPng.NUM_RINGS ->
  Forall (fun x => 0 <= x) (map pointCount (range n)).
Proof.
  intros Hn. apply Forall_forall. intros x Hx.
  apply in_map_iff in Hx. destruct Hx as [i [<- Hi]].
  apply in_range in Hi. pose proof (@pointCount_pos i). lia.
Qed.

Lemma ring_counts_total :
  sum_Z (map pointCount (range TempToPng.NUM_RINGS)) = totalPoints.
Proof. vm_compute. reflexivity. Qed.

Lemma prefix_sums_no_wrap (l : list Z) : forall acc,
  0 <= acc -> acc + sum_Z l < 2 ^ 32 -> Forall (fun x => 0 <= x) l ->
  map (fun t => t mod 2 ^ 32) (prefix_sums acc l) = prefix_sums acc l.
Proof.
  induction l as [|x l IH]; intros acc Hacc Hsum Hl; simpl; [reflexivity|].
  inversion Hl as [|? ? Hx Hl']; subst. simpl in Hsum.
  pose proof (sum_Z_nonneg Hl').
  rewrite Z.mod_small by lia. f_equal. apply IH; auto; lia.
Qed.

Lemma ring_offsets_prefix_sums :
  TempToPng.generate_ring_offsets
  = prefix_sums 0 (map pointCount (range TempToPng.NUM_RINGS)).
Proof.
  rewrite ring_offsets_fill. apply prefix_sums_no_wrap.
  - lia.
  - rewrite ring_counts_total. reflexivity.
  - apply ring_counts_nonneg. lia.
Qed.

Lemma firstn_range_from (k : nat) : forall i j, (j <= k)%nat ->
  firstn j (range_from i k) = range_from i j.
Proof.
  induction k as [|k IH]; intros i j Hj.
  - replace j with 0%nat by lia. reflexivity.
  - destruct j as [|j]; [reflexivity|]. simpl. now rewrite IH by lia.
Qed.

Lemma ring_offsets_length : len TempToPng.generate_ring_offsets = TempToPng.NUM_RINGS.
Proof.
  rewrite ring_offsets_prefix_sums. unfold len.
  rewrite prefix_sums_length, length_map. apply range_length. discriminate.
Qed.

(** The offset of ring [i] is the number of points in the rings before. *)
Lemma ring_offset_at (i : Z) :
  0 <= i < TempToPng.NUM_RINGS ->
  getitem TempToPng.generate_ring_offsets i
  = Ok (sum_Z (map pointCount (range i))).
Proof.
  intros Hi. rewrite (getitem_in_range _ 0) by (rewrite ring_offsets_length; lia).
  rewrite ring_offsets_prefix_sums. f_equal.
  assert (Hlen : length (map pointCount (range TempToPng.NUM_RINGS))
                 = Z.to_nat TempToPng.NUM_RINGS).
  { rewrite length_map. unfold range. apply range_from_length. }
  rewrite prefix_sums_nth by lia.
  rewrite firstn_map. unfold range. rewrite firstn_range_from by lia.
  reflexivity.
Qed.

Lemma range_succ (i : Z) : 0 <= i -> range (i + 1) = range i ++ [i].
Proof.
  intros Hi. unfold range. replace (Z.to_nat (i + 1)) with (S (Z.to_nat i)) by lia.
  rewrite range_from_snoc. do 2 f_equal. lia.
Qed.

Lemma sum_counts_succ (i : Z) : 0 <= i ->
  sum_Z (map pointCount (range (i + 1)))
  = sum_Z (map pointCount (range i)) + pointCount i.
Proof.
  intros Hi. rewrite range_succ, map_app, sum_Z_app by lia. simpl. lia.
Qed.

Lemma sum_counts_mono (i : Z) : forall j,
  0 <= i <= j -> j <= TempToPng.NUM_RINGS ->
  sum_Z (map pointCount (range i)) <= sum_Z (map pointCount (range j)).
Proof.
  intros j Hij Hj. 
  replace j with (i + Z.of_nat (Z.to_nat (j - i))) in * by lia.
  induction (Z.to_nat (j - i)) as [|k IH]; [rewrite Z.add_0_r; lia|].
  assert (0 <= i <= i + Z.of_nat k) by lia.
  specialize (IH H ltac:(lia)).
  replace (i + Z.of_nat (S k)) with (i + Z.of_nat k + 1) by lia.
  rewrite sum_counts_succ by lia.
  pose proof (@pointCount_pos (i + Z.of_nat k)). lia.
Qed.

(** The block of every ring lies inside the [totalPoints] grid points. *)
Lemma ring_block (ring : Z) :
  0 <= ring < TempToPng.NUM_RINGS ->
  exists off,
    getitem TempToPng.generate_ring_offsets ring = Ok off /\
    0 <= off /\ off + pointCount ring <= totalPoints.
Proof.
  intros H. exists (sum_Z (map pointCount (range ring))).
  split; [now apply ring_offset_at|]. split.
  - apply sum_Z_nonneg, ring_counts_nonneg. lia.
  - rewrite <- sum_counts_succ by lia. rewrite <- ring_counts_total.
    apply sum_counts_mono; lia.
Qed.

(** C2.  For N = 1280 the table of [generate_ring_offsets] is the exclusive
    prefix sum of the ring point counts [4 * ringFromPole + 16]: it starts
    at 0, the entry of ring [i] is the sum of the counts of the rings before
    it, the counts add up to [totalPoints] = 6,599,680, and so does the last
    offset plus the last ring's count. *)
Theorem ring_offsets_exclusive_prefix_sum :
  TempToPng.N = 1280 /\
  TempToPng.NUM_RINGS = 2560 /\
  TempToPng.generate_ring_offsets
  = prefix_sums 0 (map pointCount (range TempToPng.NUM_RINGS)) /\
  len TempToPng.generate_ring_offsets = TempToPng.NUM_RINGS /\
  getitem TempToPng.generate_ring_offsets 0 = Ok 0 /\
  (forall i, 0 <= i < TempToPng.NUM_RINGS ->
     getitem TempToPng.generate_ring_offsets i
     = Ok (sum_Z (map pointCount (range i)))) /\
  sum_Z (map pointCount (range TempToPng.NUM_RINGS)) = totalPoints /\
  (off <- getitem TempToPng.generate_ring_offsets (TempToPng.NUM_RINGS - 1) ;;
   Ok (off + pointCount (TempToPng.NUM_RINGS - 1))) = Ok totalPoints /\
  totalPoints = 6599680.
Proof.
  split; [reflexivity|]. split; [reflexivity|].
  split; [exact ring_offsets_prefix_sums|].
  split; [exact ring_offsets_length|].
  split; [exact (@ring_offset_at 0 ltac:(split; [lia|reflexivity]))|].
  split; [exact ring_offset_at|].
  split; [exact ring_counts_total|].
  split; [|reflexivity].
  rewrite ring_offset_at by (unfold TempToPng.NUM_RINGS, TempToPng.N; lia).
  cbn [bind]. apply (f_equal (@Ok Z)).
  rewrite <- sum_counts_succ by (unfold TempToPng.NUM_RINGS, TempToPng.N; lia).
  replace (TempToPng.NUM_RINGS - 1 + 1) with TempToPng.NUM_RINGS by lia.
  exact ring_counts_total.
Qed.

(** ** The sampler, for every model of the scalars *)

Section Sampler.

Context {F : Type} {num : PyFloat F}.

(** The loop of [generate_gaussian_lats]. *)
Lemma gaussian_lats_loop (m : nat) : forall (pre : list F),
  fold_left TempToPng.gaussian_lats_step
    (range_from (Z.of_nat (length pre)) m) (pre ++ repeat (of_Z 0) m)
  = pre ++ map ring_latitude (range_from (Z.of_nat (length pre)) m).
Proof.
  induction m as [|m IH]; intros pre; [reflexivity|].
  cbn [range_from fold_left repeat map].
  unfold TempToPng.gaussian_lats_step at 2.
  rewrite Nat2Z.id, setitem_app.
  fold (ring_latitude (Z.of_nat (length pre))).
  change (pre ++ ring_latitude (Z.of_nat (length pre)) :: repeat (of_Z 0) m)
    with (pre ++ [ring_latitude (Z.of_nat (length pre))] ++ repeat (of_Z 0) m).
  rewrite app_assoc.
  replace (Z.of_nat (length pre) + 1)
    with (Z.of_nat (length (pre ++ [ring_latitude (Z.of_nat (length pre))])))
    by (rewrite length_app; simpl; lia).
  rewrite IH, <- app_assoc. reflexivity.
Qed.

Lemma gaussian_lats_loop0 (m : nat) :
  fold_left TempToPng.gaussian_lats_step (range_from 0 m) (repeat (of_Z 0) m)
  = map ring_latitude (range_from 0 m).
Proof. exact (gaussian_lats_loop m []). Qed.

Lemma gaussian_lats_fill :
  TempToPng.generate_gaussian_lats = map ring_latitude (range TempToPng.NUM_RINGS).
Proof.
  unfold TempToPng.generate_gaussian_lats, range. apply gaussian_lats_loop0.
Qed.

Lemma gaussian_lats_length :
  length (TempToPng.generate_gaussian_lats (F := F)) = Z.to_nat TempToPng.NUM_RINGS.
Proof.
  rewrite gaussian_lats_fill, length_map. apply range_from_length.
Qed.

Lemma gaussian_lats_nth (i : nat) (d : F) :
  (i < Z.to_nat TempToPng.NUM_RINGS)%nat ->
  nth i TempToPng.generate_gaussian_lats d = ring_latitude (Z.of_nat i).
Proof.
  intros Hi. rewrite gaussian_lats_fill.
  rewrite (nth_indep _ d (ring_latitude 0))
    by (rewrite length_map; unfold range; rewrite range_from_length; lia).
  rewrite (map_nth ring_latitude). unfold range.
  rewrite range_from_nth by lia. f_equal.
Qed.

(** NumPy's binary search stays between its bounds, and with enough fuel
    it ends at the boundary of the entries below [v], whenever those
    entries form an initial segment of [a]. *)
Lemma binsearch_left_bounds (a : list F) (v : F) (fuel : nat) :
  forall lo hi, (lo <= hi)%nat ->
  (lo <= TempToPng.binsearch_left fuel a v lo hi <= hi)%nat.
Proof.
  induction fuel as [|fuel IH]; intros lo hi Hle;
    cbn [TempToPng.binsearch_left]; [lia|].
  destruct (Nat.ltb_spec lo hi); [|lia].
  pose proof (Nat.div_mod_eq (hi - lo) 2) as Hd.
  pose proof (Nat.mod_upper_bound (hi - lo) 2 ltac:(lia)) as Hm.
  destruct (TempToPng.np_less _ v).
  - specialize (IH (S (lo + (hi - lo) / 2)) hi ltac:(lia)). lia.
  - specialize (IH lo (lo + (hi - lo) / 2)%nat ltac:(lia)). lia.
Qed.

Lemma binsearch_left_spec (a : list F) (v : F) :
  (forall i j, (i <= j < length a)%nat ->
     TempToPng.np_less (nth j a (of_Z 0)) v = true ->
     TempToPng.np_less (nth i a (of_Z 0)) v = true) ->
  forall fuel lo hi,
  (lo <= hi <= length a)%nat -> (hi - lo <= fuel)%nat ->
  (forall i, (i < lo)%nat -> TempToPng.np_less (nth i a (of_Z 0)) v = true) ->
  (forall i, (hi <= i < length a)%nat ->
     TempToPng.np_less (nth i a (of_Z 0)) v = false) ->
  let r := TempToPng.binsearch_left fuel a v lo hi in
  (forall i, (i < r)%nat -> TempToPng.np_less (nth i a (of_Z 0)) v = true) /\
  (forall i, (r <= i < length a)%nat ->
     TempToPng.np_less (nth i a (of_Z 0)) v = false).
Proof.
  intros Hmono. induction fuel as [|fuel IH]; intros lo hi Hb Hf Hlo Hhi;
    cbn [TempToPng.binsearch_left].
  - split; [exact Hlo|]. intros i Hi. apply Hhi. lia.
  - destruct (Nat.ltb_spec lo hi) as [Hlt|Hge].
    + pose proof (Nat.div_mod_eq (hi - lo) 2) as Hd.
      pose proof (Nat.mod_upper_bound (hi - lo) 2 ltac:(lia)) as Hm.
      set (mid := (lo + (hi - lo) / 2)%nat) in *.
      destruct (TempToPng.np_less (nth mid a (of_Z 0)) v) eqn:E.
      * apply IH; [lia|lia| |exact Hhi].
        intros i Hi. apply (Hmono i mid); [lia|exact E].
      * apply IH; [lia|lia|exact Hlo|].
        intros i Hi. destruct (TempToPng.np_less (nth i a (of_Z 0)) v) eqn:E'; [|reflexivity].
        rewrite (Hmono mid i) in E; [discriminate|lia|exact E'].
    + split; [exact Hlo|]. intros i Hi. apply Hhi. lia.
Qed.

Lemma find_ring_range (lat : F) (lats : list F) :
  0 <= TempToPng.find_ring lat lats <= len lats.
Proof.
  unfold TempToPng.find_ring, TempToPng.searchsorted, len.
  pose proof (@binsearch_left_bounds (map fneg lats) (fneg lat)
                (length (map fneg lats)) 0 (length (map fneg lats)) ltac:(lia)).
  rewrite length_map in *. lia.
Qed.

Lemma clamped_ring_range (lat : F) (lats : list F) :
  0 <= TempToPng.clamped_ring lat lats < TempToPng.NUM_RINGS.
Proof.
  unfold TempToPng.clamped_ring. pose proof (find_ring_range lat lats).
  unfold TempToPng.NUM_RINGS, TempToPng.N. lia.
Qed.

(** [get_value] in terms of its parts. *)
Lemma get_value_eq (lat lon : F) (data lats : list F) (offsets : list Z) :
  TempToPng.get_value lat lon data lats offsets =
  (let ring := TempToPng.clamped_ring lat lats in
   lon_idx <- TempToPng.lon_index lon (pointCount ring)
                (TempToPng.ring_is_int64 (TempToPng.find_ring lat lats)) ;;
   off <- getitem offsets ring ;;
   let idx := off + lon_idx in
   if idx <? len data then getitem data idx else Ok (of_Z 0)).
Proof.
  unfold TempToPng.get_value, TempToPng.lon_index, TempToPng.lon_scaled,
    TempToPng.lon_norm, TempToPng.clamped_ring, pointCount. cbv zeta.
  destruct (py_int _); reflexivity.
Qed.

(** The flat index of point [k mod n] of a ring is a valid index into an
    array of [totalPoints] values. *)
Lemma flat_index_in_range (ring k : Z) :
  0 <= ring < TempToPng.NUM_RINGS ->
  exists off,
    getitem TempToPng.generate_ring_offsets ring = Ok off /\
    0 <= k mod pointCount ring < pointCount ring /\
    0 <= off + k mod pointCount ring < totalPoints.
Proof.
  intros Hr. destruct (ring_block Hr) as [off [Hget [H0 Hle]]].
  exists off. split; [exact Hget|].
  pose proof (pointCount_pos Hr).
  pose proof (Z.mod_pos_bound k (pointCount ring) ltac:(lia)). lia.
Qed.

(** With the generated offset table, [get_value] raises what [int] raises
    and [OverflowError] when the remainder is taken of an integer beyond
    [int64]; otherwise it returns the value at the flat index, or zero when
    the array is too short for that index. *)
Lemma get_value_cases (lat lon : F) (data lats : list F) :
  let ring := TempToPng.clamped_ring lat lats in
  let n := pointCount ring in
  exists off, getitem TempToPng.generate_ring_offsets ring = Ok off /\
  match py_int (TempToPng.lon_scaled lon n) with
  | Raise e =>
      TempToPng.get_value lat lon data lats TempToPng.generate_ring_offsets
      = Raise e
  | Ok k =>
      if TempToPng.ring_is_int64 (TempToPng.find_ring lat lats)
         && negb (TempToPng.fits_int64 k)
      then
        TempToPng.get_value lat lon data lats TempToPng.generate_ring_offsets
        = Raise OverflowError
      else
        let idx := off + k mod n in
        0 <= k mod n < n /\ 0 <= idx < totalPoints /\
        TempToPng.get_value lat lon data lats TempToPng.generate_ring_offsets
        = Ok (if idx <? len data then nth (Z.to_nat idx) data (of_Z 0)
              else of_Z 0)
  end.
Proof.
  intros ring n.
  destruct (py_int (TempToPng.lon_scaled lon n)) as [k|e] eqn:E.
  - destruct (@flat_index_in_range ring k (clamped_ring_range lat lats))
      as [off [Hget [Hk Hidx]]].
    exists off. split; [exact Hget|]. fold n in Hk, Hidx.
    destruct (TempToPng.ring_is_int64 (TempToPng.find_ring lat lats)
              && negb (TempToPng.fits_int64 k)) eqn:Eo.
    + rewrite get_value_eq. cbv zeta. fold ring. fold n.
      unfold TempToPng.lon_index, TempToPng.py_mod. rewrite E. cbn [bind].
      rewrite Eo. reflexivity.
    + split; [exact Hk|]. split; [exact Hidx|].
      rewrite get_value_eq. cbv zeta. fold ring. fold n.
      unfold TempToPng.lon_index, TempToPng.py_mod. rewrite E. cbn [bind].
      rewrite Eo. cbn [bind]. rewrite Hget. cbn [bind].
      destruct (Z.ltb_spec (off + k mod n) (len data)); [|reflexivity].
      apply getitem_in_range. lia.
  - destruct (ring_block (clamped_ring_range lat lats)) as [off [Hget _]].
    exists off. split; [exact Hget|].
    rewrite get_value_eq. cbv zeta. fold ring. fold n.
    unfold TempToPng.lon_index. rewrite E. reflexivity.
Qed.

End Sampler.

(** ** Ordered scalars and the ring locator *)

Section DecreasingCheck.

Context {F : Type} {num : PyFloat F}.

Lemma strictly_decreasing_nth (l : list F) (d : F) :
  strictly_decreasing l = true ->
  forall i, (S i < length l)%nat -> fltb (nth (S i) l d) (nth i l d) = true.
Proof.
  induction l as [|x l IH]; intros H i Hi; [simpl in Hi; lia|].
  destruct l as [|y l]; [simpl in Hi; lia|].
  cbn [strictly_decreasing] in H. apply andb_prop in H. destruct H as [Hxy Hl].
  destruct i as [|i]; [exact Hxy|].
  change (fltb (nth (S i) (y :: l) d) (nth i (y :: l) d) = true).
  apply IH; [exact Hl|simpl in *; lia].
Qed.

End DecreasingCheck.

(** *** The comparison of IEEE numbers *)

Ltac compare_cases :=
  repeat match goal with
  | H : context [Pos.compare_cont Eq ?x ?y] |- _ =>
      change (Pos.compare_cont Eq x y) with (Pos.compare x y) in H
  | |- context [Pos.compare_cont Eq ?x ?y] =>
      change (Pos.compare_cont Eq x y) with (Pos.compare x y)
  end;
  repeat match goal with
  | H : context [Z.compare ?x ?y] |- _ =>
      destruct (Z.compare_spec x y); try discriminate H
  | |- context [Z.compare ?x ?y] => destruct (Z.compare_spec x y)
  | H : context [Pos.compare ?x ?y] |- _ =>
      destruct (Pos.compare_spec x y); try discriminate H
  | |- context [Pos.compare ?x ?y] => destruct (Pos.compare_spec x y)
  end;
  subst; try reflexivity; try discriminate; try lia.

Lemma SFltb_irrefl (a : spec_float) : SFltb a a = false.
Proof.
  unfold SFltb, SFcompare.
  destruct a as [s|s| |s m e]; try destruct s; try reflexivity;
    cbn [CompOpp]; compare_cases.
Qed.

Lemma SFltb_trans (a b c : spec_float) :
  SFltb a b = true -> SFltb b c = true -> SFltb a c = true.
Proof.
  unfold SFltb, SFcompare.
  destruct a as [sa|sa| |sa ma ea]; destruct b as [sb|sb| |sb mb eb];
    destruct c as [sc|sc| |sc mc ec];
    try destruct sa; try destruct sb; try destruct sc;
    intros H1 H2; try discriminate H1; try discriminate H2; try reflexivity;
    compare_cases.
Qed.

Lemma SFltb_opp (a b : spec_float) :
  SFltb (SFopp a) (SFopp b) = SFltb b a.
Proof.
  unfold SFltb, SFcompare, SFopp.
  destruct a as [sa|sa| |sa ma ea]; destruct b as [sb|sb| |sb mb eb];
    try destruct sa; try destruct sb; cbn [negb]; try reflexivity;
    compare_cases.
Qed.

Lemma SFeqb_self (a : spec_float) :
  SFeqb a a = match a with S754_nan => false | _ => true end.
Proof.
  unfold SFeqb, SFcompare.
  destruct a as [s|s| |s m e]; try destruct s; try reflexivity;
    compare_cases.
Qed.

Lemma SFltb_numbers (a b : spec_float) :
  SFltb a b = true -> a <> S754_nan /\ b <> S754_nan.
Proof.
  unfold SFltb, SFcompare.
  destruct a as [sa|sa| |sa ma ea]; destruct b as [sb|sb| |sb mb eb];
    intros H; try discriminate H; split; discriminate.
Qed.

Lemma SFleb_ltb (a b : spec_float) :
  a <> S754_nan -> b <> S754_nan -> SFleb a b = negb (SFltb b a).
Proof.
  unfold SFleb, SFltb, SFcompare.
  destruct a as [sa|sa| |sa ma ea]; destruct b as [sb|sb| |sb mb eb];
    intros Ha Hb; try congruence;
    try destruct sa; try destruct sb; try reflexivity;
    compare_cases.
Qed.

Lemma SFleb_nan (a : spec_float) : SFleb a S754_nan = false.
Proof. unfold SFleb, SFcompare. destruct a; reflexivity. Qed.

(** *** Binary64 numbers are ordered scalars *)

Lemma binary64_is_nan (a : float) :
  is_nan a = match Prim2SF a with S754_nan => true | _ => false end.
Proof.
  cbn [is_nan Binary64.num]. unfold PrimFloat.is_nan.
  rewrite FloatAxioms.eqb_spec, SFeqb_self. destruct (Prim2SF a); reflexivity.
Qed.

Lemma binary64_not_nan (a : float) :
  is_nan a = false <-> Prim2SF a <> S754_nan.
Proof.
  rewrite binary64_is_nan. destruct (Prim2SF a); split; intros H;
    try reflexivity; try discriminate; congruence.
Qed.

Lemma binary64_ordered : ordered_scalars (F := float).
Proof.
  unfold ordered_scalars. cbn [fltb fleb fneg Binary64.num].
  split; [intros a; rewrite FloatAxioms.ltb_spec; apply SFltb_irrefl|].
  split; [intros a b c; rewrite !FloatAxioms.ltb_spec; apply SFltb_trans|].
  split; [intros a b; rewrite !FloatAxioms.ltb_spec, !FloatAxioms.opp_spec; apply SFltb_opp|].
  split.
  { intros a. rewrite !binary64_is_nan, FloatAxioms.opp_spec.
    destruct (Prim2SF a); reflexivity. }
  split.
  { intros a b. rewrite FloatAxioms.ltb_spec. intros H.
    destruct (SFltb_numbers _ _ H) as [Ha Hb].
    split; apply binary64_not_nan; assumption. }
  split.
  { intros a b Ha Hb. rewrite FloatAxioms.leb_spec, FloatAxioms.ltb_spec.
    apply SFleb_ltb; apply binary64_not_nan; assumption. }
  intros a b Hb. rewrite FloatAxioms.leb_spec.
  rewrite binary64_is_nan in Hb.
  destruct (Prim2SF b); try discriminate Hb. apply SFleb_nan.
Qed.

Lemma exact_ordered : ordered_scalars (F := Q).
Proof.
  unfold ordered_scalars. cbn [fltb fleb fneg is_nan Exact.num].
  split.
  { intros a. apply negb_false_iff, Qle_bool_iff, Qle_refl. }
  split.
  { intros a b c H1 H2. apply negb_true_iff in H1, H2. apply negb_true_iff.
    destruct (Qle_bool c a) eqn:E; [|reflexivity].
    apply Qle_bool_iff in E.
    assert (Hab : (a < b)%Q).
    { apply Qnot_le_lt. intros H. apply Qle_bool_iff in H. congruence. }
    assert (Hbc : (b < c)%Q).
    { apply Qnot_le_lt. intros H. apply Qle_bool_iff in H. congruence. }
    exfalso. lra. }
  split.
  { intros a b. f_equal.
    destruct (Qle_bool (- b) (- a)) eqn:E1; destruct (Qle_bool a b) eqn:E2;
      try reflexivity; exfalso.
    - apply Qle_bool_iff in E1.
      assert (~ (a <= b)%Q) by (intros H; apply Qle_bool_iff in H; congruence).
      lra.
    - apply Qle_bool_iff in E2.
      assert (~ (- b <= - a)%Q)
        by (intros H; apply Qle_bool_iff in H; congruence).
      lra. }
  split; [reflexivity|].
  split; [intros a b _; split; reflexivity|].
  split; [|intros a b H; discriminate H].
  intros a b _ _. rewrite negb_involutive. reflexivity.
Qed.

(** *** The locator on a strictly decreasing table *)

Section OrderedLocator.

Context {F : Type} {num : PyFloat F}.
Hypothesis Hord : ordered_scalars (F := F).
Variable lats : list F.
Hypothesis Hdec : strictly_decreasing lats = true.
Hypothesis Hlen : (2 <= length lats)%nat.

Lemma decreasing_pairs (n : nat) : forall i,
  (i + S n < length lats)%nat ->
  fltb (nth (i + S n) lats (of_Z 0)) (nth i lats (of_Z 0)) = true.
Proof.
  destruct Hord as (_ & Htrans & _).
  induction n as [|n IH]; intros i Hi.
  - replace (i + 1)%nat with (S i) by lia.
    apply (strictly_decreasing_nth lats (of_Z 0) Hdec). lia.
  - apply (Htrans _ (nth (i + S n) lats (of_Z 0))).
    + replace (i + S (S n))%nat with (S (i + S n)) by lia.
      apply (strictly_decreasing_nth lats (of_Z 0) Hdec). lia.
    + apply IH. lia.
Qed.

Lemma decreasing_lt (i j : nat) :
  (i < j < length lats)%nat ->
  fltb (nth j lats (of_Z 0)) (nth i lats (of_Z 0)) = true.
Proof.
  intros H. replace j with (i + S (j - i - 1))%nat by lia.
  apply decreasing_pairs. lia.
Qed.

Lemma entries_are_numbers (i : nat) :
  (i < length lats)%nat -> is_nan (nth i lats (of_Z 0)) = false.
Proof.
  destruct Hord as (_ & _ & _ & _ & Hnum & _).
  intros Hi. destruct i as [|i].
  - assert (H : (0 < 1 < length lats)%nat) by lia.
    exact (proj2 (Hnum _ _ (decreasing_lt H))).
  - assert (H : (0 < S i < length lats)%nat) by lia.
    exact (proj1 (Hnum _ _ (decreasing_lt H))).
Qed.

Lemma negated_nth (i : nat) :
  (i < length lats)%nat ->
  nth i (map fneg lats) (of_Z 0) = fneg (nth i lats (of_Z 0)).
Proof.
  intros Hi. rewrite (nth_indep _ (of_Z 0) (fneg (of_Z 0)))
    by (rewrite length_map; exact Hi).
  apply map_nth.
Qed.

(** On the negated table, "below the negated query" means "not at or below
    the query" on the table itself. *)
Lemma locate_test (lat : F) (i : nat) :
  (i < length lats)%nat ->
  TempToPng.np_less (nth i (map fneg lats) (of_Z 0)) (fneg lat)
  = negb (fleb (nth i lats (of_Z 0)) lat).
Proof.
  destruct Hord as (_ & _ & Hneg & Hnn & _ & Hle & Hlen').
  intros Hi. rewrite (negated_nth Hi). unfold TempToPng.np_less.
  rewrite Hneg, !Hnn, (entries_are_numbers Hi). cbn [negb].
  rewrite andb_true_r.
  destruct (is_nan lat) eqn:En.
  - rewrite orb_true_r, (Hlen' _ _ En). reflexivity.
  - rewrite orb_false_r, (Hle _ _ (entries_are_numbers Hi) En).
    now rewrite negb_involutive.
Qed.

Lemma locate_test_monotone (lat : F) (i j : nat) :
  (i <= j < length lats)%nat ->
  fleb (nth j lats (of_Z 0)) lat = false -> fleb (nth i lats (of_Z 0)) lat = false.
Proof.
  destruct Hord as (_ & Htrans & _ & _ & _ & Hle & Hlen').
  intros Hij Hj. destruct (Nat.eq_dec i j) as [->|Hne]; [exact Hj|].
  destruct (is_nan lat) eqn:En; [apply Hlen'; exact En|].
  assert (Hi' : (i < length lats)%nat) by lia.
  assert (Hj' : (j < length lats)%nat) by lia.
  rewrite (Hle _ _ (entries_are_numbers Hj') En) in Hj.
  rewrite (Hle _ _ (entries_are_numbers Hi') En).
  apply negb_false_iff in Hj. apply negb_false_iff.
  apply (Htrans _ _ _ Hj). apply decreasing_lt. lia.
Qed.

(** [find_ring] returns the first index whose latitude is at or below the
    query, and the length of the table when there is none. *)
Lemma find_ring_split (lat : F) :
  let r := TempToPng.find_ring lat lats in
  0 <= r <= len lats /\
  (forall i, (Z.of_nat i < r) -> fleb (nth i lats (of_Z 0)) lat = false) /\
  (forall i, (r <= Z.of_nat i < len lats) ->
     fleb (nth i lats (of_Z 0)) lat = true).
Proof.
  intros r. pose proof (find_ring_range lat lats) as Hr. fold r in Hr.
  split; [exact Hr|].
  assert (Hla : length (map fneg lats) = length lats) by apply length_map.
  assert (Er : r = Z.of_nat
            (TempToPng.binsearch_left (length lats) (map fneg lats)
               (fneg lat) 0 (length lats))).
  { unfold r, TempToPng.find_ring, TempToPng.searchsorted. now rewrite Hla. }
  pose proof (@binsearch_left_spec F num (map fneg lats) (fneg lat)) as S.
  rewrite Hla in S.
  assert (Hmono : forall i j, (i <= j < length lats)%nat ->
     TempToPng.np_less (nth j (map fneg lats) (of_Z 0)) (fneg lat) = true ->
     TempToPng.np_less (nth i (map fneg lats) (of_Z 0)) (fneg lat) = true).
  { intros i j Hij.
    rewrite !locate_test by lia. rewrite !negb_true_iff.
    apply locate_test_monotone. exact Hij. }
  specialize (S Hmono (length lats) 0%nat (length lats)
                (conj (Nat.le_0_l _) (Nat.le_refl _)) (Nat.le_sub_l _ _)).
  assert (S0 : forall i, (i < 0)%nat ->
     TempToPng.np_less (nth i (map fneg lats) (of_Z 0)) (fneg lat) = true)
    by (intros i Hi; inversion Hi).
  assert (S1 : forall i, (length lats <= i < length lats)%nat ->
     TempToPng.np_less (nth i (map fneg lats) (of_Z 0)) (fneg lat) = false)
    by (intros i Hi; exfalso; lia).
  specialize (S S0 S1). cbv zeta in S. destruct S as [Sb Sa].
  unfold len in *. split.
  - intros i Hi. assert (Hi' : (i < length lats)%nat) by lia.
    specialize (Sb i ltac:(lia)).
    rewrite (locate_test lat Hi') in Sb. now apply negb_true_iff in Sb.
  - intros i Hi. assert (Hi' : (i < length lats)%nat) by lia.
    specialize (Sa i ltac:(lia)).
    rewrite (locate_test lat Hi') in Sa. now apply negb_false_iff in Sa.
Qed.

(** The latitude of a ring is located on that ring. *)
Lemma find_ring_own (i : nat) :
  (i < length lats)%nat ->
  TempToPng.find_ring (nth i lats (of_Z 0)) lats = Z.of_nat i.
Proof.
  intros Hi.
  destruct Hord as (Hirr & _ & _ & _ & _ & Hle & _).
  destruct (find_ring_split (nth i lats (of_Z 0))) as [Hr [Hb Ha]].
  pose proof (entries_are_numbers Hi) as Hn.
  assert (Hself : fleb (nth i lats (of_Z 0)) (nth i lats (of_Z 0)) = true)
    by (rewrite (Hle _ _ Hn Hn), Hirr; reflexivity).
  set (r := TempToPng.find_ring (nth i lats (of_Z 0)) lats) in *. clearbody r.
  unfold len in *.
  destruct (Z_lt_le_dec (Z.of_nat i) r) as [Hlt|Hge].
  - rewrite (Hb i Hlt) in Hself. discriminate.
  - destruct (Z.eq_dec r (Z.of_nat i)) as [E|Hne]; [exact E|]. exfalso.
    assert (H0 : r <= Z.of_nat (Z.to_nat r) < Z.of_nat (length lats)) by lia.
    pose proof (Ha _ H0) as Hr'.
    assert (Hr2 : (Z.to_nat r < i < length lats)%nat) by lia.
    pose proof (decreasing_lt Hr2) as Hlt.
    assert (Hn' : is_nan (nth (Z.to_nat r) lats (of_Z 0)) = false)
      by (apply entries_are_numbers; lia).
    rewrite (Hle _ _ Hn' Hn), Hlt in Hr'. discriminate.
Qed.

End OrderedLocator.

(** ** Exact arithmetic *)

Lemma exact_fltb (a b : Q) : fltb a b = true <-> (a < b)%Q.
Proof.
  cbn. rewrite negb_true_iff. split.
  - intros H. apply Qnot_le_lt. intros Hle.
    apply Qle_bool_iff in Hle. congruence.
  - intros H. destruct (Qle_bool b a) eqn:E; [|reflexivity].
    apply Qle_bool_iff in E. apply Qlt_not_le in H. contradiction.
Qed.

Lemma exact_fltb_false (a b : Q) : fltb a b = false <-> (b <= a)%Q.
Proof.
  cbn. rewrite negb_false_iff. apply Qle_bool_iff.
Qed.

Lemma exact_np_less (a b : Q) : TempToPng.np_less a b = true <-> (a < b)%Q.
Proof.
  unfold TempToPng.np_less. cbn [is_nan Exact.num]. cbn [andb].
  rewrite orb_false_r. apply exact_fltb.
Qed.

Lemma exact_np_less_false (a b : Q) :
  TempToPng.np_less a b = false <-> (b <= a)%Q.
Proof.
  unfold TempToPng.np_less. cbn [is_nan Exact.num]. cbn [andb].
  rewrite orb_false_r. apply exact_fltb_false.
Qed.

Lemma exact_pi_pos : (0 < Exact.pi)%Q.
Proof. reflexivity. Qed.

(** The latitude of ring [i] in degrees is [90 - (i + 1/2) * 180 / 2560],
    and radians are degrees times [pi / 180]. *)
Lemma exact_ring_latitude (i : Z) :
  (ring_latitude i ==
   (90 - (inject_Z i + (1 # 2)) * (9 # 128)) * (Exact.pi / 180))%Q.
Proof.
  unfold ring_latitude, TempToPng.np_radians. cbn -[Exact.pi Qmult Qplus Qminus Qdiv inject_Z].
  change (inject_Z TempToPng.NUM_RINGS) with (2560 # 1)%Q.
  change (inject_Z 180) with (180 # 1)%Q. change (inject_Z 90) with (90 # 1)%Q.
  field.
Qed.

Lemma exact_ring_latitude_decreasing (i j : Z) :
  i < j -> (ring_latitude j < ring_latitude i)%Q.
Proof.
  intros Hij. rewrite !exact_ring_latitude.
  assert (H : (inject_Z i < inject_Z j)%Q) by (rewrite <- Zlt_Qlt; exact Hij).
  apply Qmult_lt_compat_r.
  - reflexivity.
  - lra.
Qed.

Lemma exact_lats_nth (i : Z) (d : Q) :
  0 <= i < TempToPng.NUM_RINGS ->
  nth (Z.to_nat i) TempToPng.generate_gaussian_lats d = ring_latitude i.
Proof.
  intros Hi. rewrite gaussian_lats_nth by lia. f_equal. lia.
Qed.

(** The unclamped result of [find_ring] splits the rings: the centres of
    the rings before it lie above the query, the others do not. *)
Lemma exact_find_ring (lat : Q) :
  let r := TempToPng.find_ring lat TempToPng.generate_gaussian_lats in
  0 <= r <= TempToPng.NUM_RINGS /\
  (forall i, 0 <= i < r -> (lat < ring_latitude i)%Q) /\
  (forall i, r <= i < TempToPng.NUM_RINGS -> (ring_latitude i <= lat)%Q).
Proof.
  intros r.
  assert (HN : Z.to_nat TempToPng.NUM_RINGS = 2560%nat) by reflexivity.
  assert (HN' : TempToPng.NUM_RINGS = 2560) by reflexivity.
  assert (Hlen : length (map fneg (TempToPng.generate_gaussian_lats (F := Q)))
                 = Z.to_nat TempToPng.NUM_RINGS)
    by (rewrite length_map; apply gaussian_lats_length).
  assert (Hnth : forall i, (i < Z.to_nat TempToPng.NUM_RINGS)%nat ->
            nth i (map fneg (TempToPng.generate_gaussian_lats (F := Q))) (of_Z 0)
            = Qopp (ring_latitude (Z.of_nat i))).
  { intros i Hi. change (of_Z 0 : Q) with (fneg (of_Z 0 : Q)).
    rewrite (map_nth fneg). now rewrite gaussian_lats_nth. }
  assert (Er : r = Z.of_nat
            (TempToPng.binsearch_left (Z.to_nat TempToPng.NUM_RINGS)
               (map fneg TempToPng.generate_gaussian_lats) (fneg lat) 0
               (Z.to_nat TempToPng.NUM_RINGS))).
  { unfold r, TempToPng.find_ring, TempToPng.searchsorted. now rewrite Hlen. }
  clearbody r.
  pose proof (@binsearch_left_bounds Q _
                (map fneg TempToPng.generate_gaussian_lats) (fneg lat)
                (Z.to_nat TempToPng.NUM_RINGS) 0
                (Z.to_nat TempToPng.NUM_RINGS) (Nat.le_0_l _)) as Hb.
  pose proof (@binsearch_left_spec Q _
                (map fneg TempToPng.generate_gaussian_lats) (fneg lat)) as S.
  rewrite Hlen in S.
  assert (Hmono : forall i j, (i <= j < Z.to_nat TempToPng.NUM_RINGS)%nat ->
     TempToPng.np_less
       (nth j (map fneg (TempToPng.generate_gaussian_lats (F := Q))) (of_Z 0))
       (fneg lat) = true ->
     TempToPng.np_less
       (nth i (map fneg (TempToPng.generate_gaussian_lats (F := Q))) (of_Z 0))
       (fneg lat) = true).
  { intros i j Hij. rewrite !Hnth by lia. rewrite !exact_np_less.
    cbn [fneg Exact.num].
    intros H. destruct (Nat.eq_dec i j) as [->|Hne]; [exact H|].
    assert (Hlt : Z.of_nat i < Z.of_nat j) by lia.
    pose proof (exact_ring_latitude_decreasing Hlt).
    lra. }
  specialize (S Hmono (Z.to_nat TempToPng.NUM_RINGS) 0%nat
                (Z.to_nat TempToPng.NUM_RINGS)
                (conj (Nat.le_0_l _) (Nat.le_refl _))
                (Nat.le_sub_l _ _)).
  assert (S0 : forall i, (i < 0)%nat ->
     TempToPng.np_less
       (nth i (map fneg (TempToPng.generate_gaussian_lats (F := Q))) (of_Z 0))
       (fneg lat) = true) by (intros i Hi; inversion Hi).
  assert (S1 : forall i,
     (Z.to_nat TempToPng.NUM_RINGS <= i < Z.to_nat TempToPng.NUM_RINGS)%nat ->
     TempToPng.np_less
       (nth i (map fneg (TempToPng.generate_gaussian_lats (F := Q))) (of_Z 0))
       (fneg lat) = false) by (intros i [Hi1 Hi2]; exfalso; apply (Nat.lt_irrefl i); eapply Nat.lt_le_trans; eauto).
  specialize (S S0 S1). cbv zeta in S.
  set (b := TempToPng.binsearch_left (Z.to_nat TempToPng.NUM_RINGS)
               (map fneg TempToPng.generate_gaussian_lats) (fneg lat) 0
               (Z.to_nat TempToPng.NUM_RINGS)) in *.
  clearbody b. destruct S as [Sb Sa]. rewrite HN in *. rewrite HN'. subst r.
  split; [lia|]. split.
  - intros i Hi. specialize (Sb (Z.to_nat i) ltac:(lia)).
    rewrite Hnth in Sb by lia. apply exact_np_less in Sb.
    cbn [fneg Exact.num] in Sb.
    rewrite Z2Nat.id in Sb by lia. lra.
  - intros i Hi. specialize (Sa (Z.to_nat i) ltac:(lia)).
    rewrite Hnth in Sa by lia. apply exact_np_less_false in Sa.
    cbn [fneg Exact.num] in Sa. rewrite Z2Nat.id in Sa by lia. lra.
Qed.

Lemma exact_ring_latitude_injective_order (i j : Z) :
  (ring_latitude j < ring_latitude i)%Q -> i < j.
Proof.
  intros H. destruct (Z_lt_le_dec i j) as [Hlt|Hge]; [exact Hlt|].
  exfalso. destruct (Z.eq_dec i j) as [->|Hne].
  - apply (Qlt_irrefl _ H).
  - assert (Hji : j < i) by lia.
    pose proof (exact_ring_latitude_decreasing Hji). lra.
Qed.

Lemma exact_split_point_unique (i r : Z) :
  0 <= i < TempToPng.NUM_RINGS ->
  0 <= r <= TempToPng.NUM_RINGS ->
  (forall j, 0 <= j < r -> (ring_latitude i < ring_latitude j)%Q) ->
  (forall j, r <= j < TempToPng.NUM_RINGS ->
     (ring_latitude j <= ring_latitude i)%Q) ->
  r = i.
Proof.
  intros Hi Hr Hb Ha.
  destruct (Z_lt_le_dec i r) as [Hlt|Hge].
  - assert (H0 : 0 <= i < r) by lia.
    exfalso. apply (Qlt_irrefl _ (Hb i H0)).
  - destruct (Z.eq_dec r i) as [->|Hne]; [reflexivity|].
    assert (H0 : r <= r < TempToPng.NUM_RINGS) by lia.
    specialize (Ha r H0).
    assert (Hri : r < i) by lia.
    pose proof (exact_ring_latitude_decreasing Hri). lra.
Qed.

Lemma exact_find_ring_own (i : Z) :
  0 <= i < TempToPng.NUM_RINGS ->
  TempToPng.find_ring (F := Q) (ring_latitude i)
    TempToPng.generate_gaussian_lats = i.
Proof.
  intros Hi. pose proof (exact_find_ring (ring_latitude i)) as H.
  cbv zeta in H. destruct H as [Hr [Hb Ha]].
  exact (exact_split_point_unique Hi Hr Hb Ha).
Qed.


Lemma binary64_latitudes_decreasing :
  strictly_decreasing
    (map (ring_latitude (F := float)) (range TempToPng.NUM_RINGS)) = true.
Proof. vm_compute. reflexivity. Qed.

Lemma binary64_lats_decreasing :
  strictly_decreasing (TempToPng.generate_gaussian_lats (F := float)) = true.
Proof.
  exact (eq_trans (f_equal strictly_decreasing gaussian_lats_fill)
           binary64_latitudes_decreasing).
Qed.

Lemma exact_lats_decreasing (i : Z) :
  0 <= i < TempToPng.NUM_RINGS - 1 ->
  (nth (Z.to_nat (i + 1)) TempToPng.generate_gaussian_lats 0
   < nth (Z.to_nat i) TempToPng.generate_gaussian_lats 0)%Q.
Proof.
  assert (HN : TempToPng.NUM_RINGS = 2560) by reflexivity.
  intros Hi. rewrite !exact_lats_nth by lia.
  apply exact_ring_latitude_decreasing. lia.
Qed.

Lemma exact_lats_self_located (i : Z) :
  0 <= i < TempToPng.NUM_RINGS ->
  TempToPng.find_ring
    (nth (Z.to_nat i) TempToPng.generate_gaussian_lats 0%Q)
    TempToPng.generate_gaussian_lats = i.
Proof.
  intros Hi. rewrite exact_lats_nth by lia. now apply exact_find_ring_own.
Qed.

Lemma binary64_lats_adjacent (i : Z) :
  0 <= i < TempToPng.NUM_RINGS - 1 ->
  fltb
    (nth (Z.to_nat (i + 1)) TempToPng.generate_gaussian_lats 0%float)
    (nth (Z.to_nat i) TempToPng.generate_gaussian_lats 0%float) = true.
Proof.
  assert (HN : Z.to_nat TempToPng.NUM_RINGS = 2560%nat) by reflexivity.
  assert (HN' : TempToPng.NUM_RINGS = 2560) by reflexivity.
  intros Hi. replace (Z.to_nat (i + 1)) with (S (Z.to_nat i)) by lia.
  apply (strictly_decreasing_nth (F := float) _ _ binary64_lats_decreasing).
  rewrite gaussian_lats_length, HN. lia.
Qed.


(** *** Truncation of rationals *)

Lemma trunc_nonneg (x : Q) : (0 <= x)%Q -> Exact.trunc x = Qfloor x.
Proof.
  intros Hx. destruct x as [n d]. unfold Exact.trunc, Qfloor. cbn [Qnum Qden].
  apply Z.quot_div_nonneg; [|lia].
  unfold Qle in Hx. cbn in Hx. lia.
Qed.

Lemma Qfloor_unique (x : Q) (z : Z) :
  (inject_Z z <= x)%Q -> (x < inject_Z (z + 1))%Q -> Qfloor x = z.
Proof.
  intros Hle Hlt.
  pose proof (Qfloor_le x) as H1. pose proof (Qlt_floor x) as H2.
  assert (A : (inject_Z z < inject_Z (Qfloor x + 1))%Q) by lra.
  assert (B : (inject_Z (Qfloor x) < inject_Z (z + 1))%Q) by lra.
  rewrite <- Zlt_Qlt in A, B. lia.
Qed.

Lemma trunc_zero (x : Q) : (x == 0)%Q -> Exact.trunc x = 0.
Proof.
  intros Hx. destruct x as [n d]. unfold Qeq in Hx. cbn in Hx.
  unfold Exact.trunc. cbn [Qnum Qden].
  replace n with 0 by lia. apply Z.quot_0_l. discriminate.
Qed.

(** ** The ring locator on the table the code builds *)

Section OrderFacts.

Context {F : Type} {num : PyFloat F}.
Hypothesis Hord : ordered_scalars (F := F).

Lemma ordered_lt_le (a b : F) :
  fltb a b = true -> fleb a b = true /\ fleb b a = false.
Proof.
  destruct Hord as (Hirr & Htrans & _ & _ & Hnum & Hle & _).
  intros H. destruct (Hnum _ _ H) as [Ha Hb].
  rewrite (Hle _ _ Ha Hb), (Hle _ _ Hb Ha), H. split; [|reflexivity].
  destruct (fltb b a) eqn:E; [|reflexivity].
  pose proof (Htrans _ _ _ H E) as Haa. rewrite Hirr in Haa. discriminate.
Qed.

End OrderFacts.

Lemma binary64_lats_length :
  length (TempToPng.generate_gaussian_lats (F := float)) = 2560%nat.
Proof. exact (gaussian_lats_length (F := float)). Qed.

(** The float32 latitudes of the first and the last ring lie inside
    [-pi/2, pi/2]. *)
Lemma binary64_pole_latitudes :
  fltb (ring_latitude (F := float) 0) (fdiv np_pi (of_Z 2)) = true /\
  fltb (fneg (fdiv np_pi (of_Z 2)))
       (ring_latitude (F := float) (TempToPng.NUM_RINGS - 1)) = true.
Proof. split; vm_compute; reflexivity. Qed.

Lemma binary64_find_ring (lat : float) :
  let lats := TempToPng.generate_gaussian_lats in
  let r := TempToPng.find_ring lat lats in
  0 <= r <= TempToPng.NUM_RINGS /\
  (forall i, 0 <= i < r -> fleb (nth (Z.to_nat i) lats (of_Z 0)) lat = false) /\
  (forall i, r <= i < TempToPng.NUM_RINGS ->
     fleb (nth (Z.to_nat i) lats (of_Z 0)) lat = true).
Proof.
  intros lats r.
  assert (Hlen : (2 <= length lats)%nat)
    by (unfold lats; rewrite binary64_lats_length; lia).
  destruct (@find_ring_split float _ binary64_ordered lats
              binary64_lats_decreasing Hlen lat) as [Hr [Hb Ha]].
  fold r in Hr, Hb, Ha.
  assert (Hl : len lats = TempToPng.NUM_RINGS)
    by (unfold len, lats; rewrite binary64_lats_length; reflexivity).
  rewrite Hl in Hr, Ha. clearbody r.
  split; [exact Hr|]. split.
  - intros i Hi. apply Hb. lia.
  - intros i Hi. apply Ha. lia.
Qed.

Lemma binary64_find_ring_own (i : Z) :
  0 <= i < TempToPng.NUM_RINGS ->
  TempToPng.find_ring
    (nth (Z.to_nat i) (TempToPng.generate_gaussian_lats (F := float)) (of_Z 0))
    TempToPng.generate_gaussian_lats = i.
Proof.
  intros Hi.
  assert (HN : TempToPng.NUM_RINGS = 2560) by reflexivity.
  assert (Hlen : (2 <= length (TempToPng.generate_gaussian_lats (F := float)))%nat)
    by (rewrite binary64_lats_length; lia).
  assert (Hi' : (Z.to_nat i
                 < length (TempToPng.generate_gaussian_lats (F := float)))%nat)
    by (rewrite binary64_lats_length; lia).
  rewrite (@find_ring_own float _ binary64_ordered _
             binary64_lats_decreasing Hlen _ Hi').
  lia.
Qed.

(** C3.  For every binary64 query latitude, on the float32 latitude table
    that [generate_gaussian_lats] builds: [find_ring] returns the index of
    the first ring whose latitude is at most the query (for every ring
    before it the test [latitude <= query] fails, for every ring from it on
    it holds), and [NUM_RINGS] when there is none; [get_value] clamps this
    to [0, NUM_RINGS - 1].  A query above pi/2 is located on ring 0, a query
    below -pi/2 on ring [NUM_RINGS - 1], and so is a NaN. *)
Theorem find_ring_first_ring_not_above (lat : float) :
  let lats := TempToPng.generate_gaussian_lats in
  let r := TempToPng.find_ring lat lats in
  let ring := TempToPng.clamped_ring lat lats in
  ring = Z.min r (TempToPng.NUM_RINGS - 1) /\
  0 <= ring <= TempToPng.NUM_RINGS - 1 /\
  0 <= r <= TempToPng.NUM_RINGS /\
  (forall i, 0 <= i < r ->
     fleb (nth (Z.to_nat i) lats (of_Z 0)) lat = false) /\
  (forall i, r <= i < TempToPng.NUM_RINGS ->
     fleb (nth (Z.to_nat i) lats (of_Z 0)) lat = true) /\
  (fltb (fdiv np_pi (of_Z 2)) lat = true -> ring = 0) /\
  (fltb lat (fneg (fdiv np_pi (of_Z 2))) = true ->
   ring = TempToPng.NUM_RINGS - 1) /\
  (is_nan lat = true -> ring = TempToPng.NUM_RINGS - 1).
Proof.
  intros lats r ring.
  destruct (binary64_find_ring lat) as [Hr [Hb Ha]].
  fold lats in Hr, Hb, Ha. fold r in Hr, Hb, Ha.
  assert (HN : TempToPng.NUM_RINGS = 2560) by reflexivity.
  assert (Hring : ring = Z.min r (TempToPng.NUM_RINGS - 1)) by reflexivity.
  assert (H0 : nth (Z.to_nat 0) lats (of_Z 0) = ring_latitude 0)
    by (unfold lats; apply gaussian_lats_nth; rewrite HN; lia).
  assert (H1 : nth (Z.to_nat (TempToPng.NUM_RINGS - 1)) lats (of_Z 0)
               = ring_latitude (TempToPng.NUM_RINGS - 1))
    by (unfold lats; apply gaussian_lats_nth; rewrite HN; lia).
  destruct binary64_pole_latitudes as [Hnorth Hsouth].
  destruct binary64_ordered as (_ & Htrans & _ & _ & _ & _ & Hnan).
  clearbody ring r lats. rewrite HN in *.
  split; [exact Hring|]. split; [lia|]. split; [exact Hr|].
  split; [exact Hb|]. split; [exact Ha|].
  split; [|split].
  - intros Hlat. pose proof (Htrans _ _ _ Hnorth Hlat) as Hlt.
    destruct (ordered_lt_le binary64_ordered _ _ Hlt) as [Hle _].
    destruct (Z.eq_dec r 0) as [->|Hne]; [subst ring; reflexivity|].
    assert (Hi : 0 <= 0 < r) by lia.
    specialize (Hb 0 Hi). rewrite H0, Hle in Hb. discriminate.
  - intros Hlat. pose proof (Htrans _ _ _ Hlat Hsouth) as Hlt.
    destruct (ordered_lt_le binary64_ordered _ _ Hlt) as [_ Hle].
    destruct (Z.eq_dec r 2560) as [->|Hne]; [subst ring; reflexivity|].
    assert (Hi : r <= 2560 - 1 < 2560) by lia.
    specialize (Ha _ Hi). rewrite H1, Hle in Ha. discriminate.
  - intros Hlat.
    destruct (Z.eq_dec r 2560) as [->|Hne]; [subst ring; reflexivity|].
    assert (Hi : r <= 2560 - 1 < 2560) by lia.
    specialize (Ha _ Hi). rewrite (Hnan _ _ Hlat) in Ha. discriminate.
Qed.

(** C4.  The table of [np.float32] latitudes that [generate_gaussian_lats]
    builds in binary64 arithmetic is strictly decreasing in the ring index,
    and [find_ring] applied to the latitude stored for ring [i] returns
    [i], for every ring.  The same two facts hold of the unrounded
    latitudes [radians(90 - (i + 0.5) * 180 / NUM_RINGS)] in exact
    arithmetic. *)
Theorem latitudes_decreasing_and_self_located :
  (forall i, 0 <= i < TempToPng.NUM_RINGS - 1 ->
     fltb
       (nth (Z.to_nat (i + 1)) TempToPng.generate_gaussian_lats 0%float)
       (nth (Z.to_nat i) TempToPng.generate_gaussian_lats 0%float) = true) /\
  (forall i, 0 <= i < TempToPng.NUM_RINGS ->
     TempToPng.find_ring
       (nth (Z.to_nat i) (TempToPng.generate_gaussian_lats (F := float))
          (of_Z 0))
       TempToPng.generate_gaussian_lats = i) /\
  (forall i, 0 <= i < TempToPng.NUM_RINGS - 1 ->
     (nth (Z.to_nat (i + 1)) TempToPng.generate_gaussian_lats 0
      < nth (Z.to_nat i) TempToPng.generate_gaussian_lats 0)%Q) /\
  (forall i, 0 <= i < TempToPng.NUM_RINGS ->
     TempToPng.find_ring
       (nth (Z.to_nat i) TempToPng.generate_gaussian_lats 0%Q)
       TempToPng.generate_gaussian_lats = i).
Proof.
  split; [exact binary64_lats_adjacent|].
  split; [exact binary64_find_ring_own|].
  split; [exact exact_lats_decreasing|exact exact_lats_self_located].
Qed.
(** ** What [get_value] returns *)

Section SamplerResult.

Context {F : Type} {num : PyFloat F}.

Lemma get_value_lon_raise (lat lon : F) (data lats : list F) (e : exn) :
  TempToPng.lon_index lon (pointCount (TempToPng.clamped_ring lat lats))
    (TempToPng.ring_is_int64 (TempToPng.find_ring lat lats)) = Raise e ->
  TempToPng.get_value lat lon data lats TempToPng.generate_ring_offsets
  = Raise e.
Proof.
  intros E. rewrite get_value_eq. cbv zeta. rewrite E. reflexivity.
Qed.

Lemma get_value_lon_ok (lat lon : F) (data lats : list F) (k : Z) :
  TempToPng.lon_index lon (pointCount (TempToPng.clamped_ring lat lats))
    (TempToPng.ring_is_int64 (TempToPng.find_ring lat lats)) = Ok k ->
  exists off,
    getitem TempToPng.generate_ring_offsets (TempToPng.clamped_ring lat lats)
    = Ok off /\
    0 <= k < pointCount (TempToPng.clamped_ring lat lats) /\
    0 <= off + k < totalPoints /\
    TempToPng.get_value lat lon data lats TempToPng.generate_ring_offsets
    = Ok (if off + k <? len data then nth (Z.to_nat (off + k)) data (of_Z 0)
          else of_Z 0).
Proof.
  intros Hk.
  pose proof (get_value_cases lat lon data lats) as H. cbv zeta in H.
  destruct H as [off [Hoff H]].
  unfold TempToPng.lon_index, TempToPng.py_mod in Hk.
  destruct (py_int (TempToPng.lon_scaled lon
              (pointCount (TempToPng.clamped_ring lat lats)))) as [k'|e];
    cbn [bind] in Hk; [|discriminate Hk].
  destruct (TempToPng.ring_is_int64 (TempToPng.find_ring lat lats)
            && negb (TempToPng.fits_int64 k')); [discriminate Hk|].
  injection Hk as <-. exists off. split; [exact Hoff|exact H].
Qed.

(** On a complete array the zero of the last line is never returned. *)
Lemma get_value_complete (lat lon : F) (data lats : list F) (k : Z) :
  len data = totalPoints ->
  TempToPng.lon_index lon (pointCount (TempToPng.clamped_ring lat lats))
    (TempToPng.ring_is_int64 (TempToPng.find_ring lat lats)) = Ok k ->
  exists off,
    getitem TempToPng.generate_ring_offsets (TempToPng.clamped_ring lat lats)
    = Ok off /\
    0 <= k < pointCount (TempToPng.clamped_ring lat lats) /\
    0 <= off + k < totalPoints /\
    getitem data (off + k) = Ok (nth (Z.to_nat (off + k)) data (of_Z 0)) /\
    TempToPng.get_value lat lon data lats TempToPng.generate_ring_offsets
    = Ok (nth (Z.to_nat (off + k)) data (of_Z 0)).
Proof.
  intros Hlen E. destruct (get_value_lon_ok lat lon data lats E)
    as [off [Hoff [Hk [Hidx Hv]]]].
  exists off. split; [exact Hoff|]. split; [exact Hk|].
  split; [exact Hidx|]. split.
  - apply getitem_in_range. lia.
  - rewrite Hv. destruct (Z.ltb_spec (off + k) (len data)); [reflexivity|lia].
Qed.

End SamplerResult.

Lemma nth_repeat_lt {A : Type} (c d : A) (n : nat) :
  forall i, (i < n)%nat -> nth i (repeat c n) d = c.
Proof.
  induction n as [|n IH]; intros i Hi; [lia|].
  destruct i as [|i]; simpl; [reflexivity|apply IH; lia].
Qed.

(** *** Binary64 *)

(** The exceptions of [int] and of the remainder. *)
Lemma binary64_lon_index_raises (lon : float) (n : Z) (b : bool) (e : exn) :
  TempToPng.lon_index lon n b = Raise e ->
  e = OverflowError \/ e = ValueError.
Proof.
  unfold TempToPng.lon_index, TempToPng.py_mod.
  cbn [py_int Binary64.num]. unfold Binary64.to_int.
  destruct (Prim2SF (TempToPng.lon_scaled lon n)) as [s|s| |s m ex];
    cbn [bind]; intros H.
  - destruct (b && negb (TempToPng.fits_int64 0)); [|discriminate H].
    injection H as <-. now left.
  - injection H as <-. now left.
  - injection H as <-. now right.
  - match type of H with
    | (if ?c then _ else _) = _ => destruct c; [|discriminate H]
    end.
    injection H as <-. now left.
Qed.

Lemma binary64_clamped_ring_poles :
  TempToPng.clamped_ring half_pi TempToPng.generate_gaussian_lats = 0 /\
  TempToPng.clamped_ring (fneg half_pi) TempToPng.generate_gaussian_lats
  = TempToPng.NUM_RINGS - 1.
Proof.
  assert (HN : TempToPng.NUM_RINGS = 2560) by reflexivity.
  destruct binary64_pole_latitudes as [Hnorth Hsouth].
  fold half_pi in Hnorth, Hsouth.
  assert (H0 : nth (Z.to_nat 0) (TempToPng.generate_gaussian_lats (F := float))
                 (of_Z 0) = ring_latitude 0)
    by (apply gaussian_lats_nth; rewrite HN; lia).
  assert (H1 : nth (Z.to_nat (TempToPng.NUM_RINGS - 1))
                 (TempToPng.generate_gaussian_lats (F := float)) (of_Z 0)
               = ring_latitude (TempToPng.NUM_RINGS - 1))
    by (apply gaussian_lats_nth; rewrite HN; lia).
  unfold TempToPng.clamped_ring. split.
  - destruct (binary64_find_ring half_pi) as [Hr [Hb _]].
    destruct (ordered_lt_le binary64_ordered _ _ Hnorth) as [Hle _].
    set (r := TempToPng.find_ring half_pi TempToPng.generate_gaussian_lats) in *.
    clearbody r. rewrite HN in *.
    destruct (Z.eq_dec r 0) as [->|Hne]; [reflexivity|].
    assert (Hi : 0 <= 0 < r) by lia.
    specialize (Hb 0 Hi). rewrite H0, Hle in Hb. discriminate.
  - destruct (binary64_find_ring (fneg half_pi)) as [Hr [_ Ha]].
    destruct (ordered_lt_le binary64_ordered _ _ Hsouth) as [_ Hle].
    set (r := TempToPng.find_ring (fneg half_pi)
                TempToPng.generate_gaussian_lats) in *.
    clearbody r. rewrite HN in *.
    destruct (Z.eq_dec r 2560) as [->|Hne]; [reflexivity|].
    assert (Hi : r <= 2560 - 1 < 2560) by lia.
    specialize (Ha _ Hi). rewrite H1, Hle in Ha. discriminate.
Qed.

Lemma is_ok_eq (r : result Z) (z : Z) : is_ok r z = true -> r = Ok z.
Proof.
  destruct r as [k|e]; cbn [is_ok]; intros H; [|discriminate H].
  apply Z.eqb_eq in H. now subst.
Qed.

Lemma binary64_seam_checked :
  forallb seam_check (range TempToPng.NUM_RINGS) = true.
Proof. vm_compute. reflexivity. Qed.

Lemma binary64_seam (ring : Z) (b : bool) :
  0 <= ring < TempToPng.NUM_RINGS ->
  TempToPng.lon_index (F := float) (fneg np_pi) (pointCount ring) b
  = Ok (pointCount ring / 2) /\
  TempToPng.lon_index pi_below (pointCount ring) b
  = Ok (pointCount ring / 2 - 1).
Proof.
  intros Hr. pose proof binary64_seam_checked as H.
  rewrite forallb_forall in H. specialize (H ring (proj2 (in_range _ _) Hr)).
  unfold seam_check in H. cbv zeta in H. cbn [forallb] in H.
  apply andb_prop in H. destruct H as [Ht H].
  apply andb_prop in H. destruct H as [Hf _].
  apply andb_prop in Ht. apply andb_prop in Hf.
  destruct Ht as [Ht1 Ht2], Hf as [Hf1 Hf2].
  destruct b; split; apply is_ok_eq; assumption.
Qed.

Lemma binary64_huge_longitude_overflows :
  let l := map (ring_latitude (F := float)) (range TempToPng.NUM_RINGS) in
  TempToPng.lon_index huge_longitude
    (pointCount (TempToPng.clamped_ring 0%float l))
    (TempToPng.ring_is_int64 (TempToPng.find_ring 0%float l))
  = Raise OverflowError.
Proof. vm_compute. reflexivity. Qed.

Lemma binary64_big_longitude_overflows :
  let l := map (ring_latitude (F := float)) (range TempToPng.NUM_RINGS) in
  TempToPng.lon_index big_longitude
    (pointCount (TempToPng.clamped_ring half_pi l))
    (TempToPng.ring_is_int64 (TempToPng.find_ring half_pi l))
  = Raise OverflowError.
Proof. vm_compute. reflexivity. Qed.

Lemma binary64_get_value_huge (data : list float) :
  TempToPng.get_value (F := float) 0%float huge_longitude data
    TempToPng.generate_gaussian_lats TempToPng.generate_ring_offsets
  = Raise OverflowError.
Proof.
  apply get_value_lon_raise.
  exact (eq_trans
           (f_equal (fun l => TempToPng.lon_index huge_longitude
                       (pointCount (TempToPng.clamped_ring 0%float l))
                       (TempToPng.ring_is_int64 (TempToPng.find_ring 0%float l)))
              gaussian_lats_fill)
           binary64_huge_longitude_overflows).
Qed.

Lemma binary64_get_value_big (data : list float) :
  TempToPng.get_value (F := float) half_pi big_longitude data
    TempToPng.generate_gaussian_lats TempToPng.generate_ring_offsets
  = Raise OverflowError.
Proof.
  apply get_value_lon_raise.
  exact (eq_trans
           (f_equal (fun l => TempToPng.lon_index big_longitude
                       (pointCount (TempToPng.clamped_ring half_pi l))
                       (TempToPng.ring_is_int64 (TempToPng.find_ring half_pi l)))
              gaussian_lats_fill)
           binary64_big_longitude_overflows).
Qed.

(** C1, as the spec states it, fails in binary64.  The finite longitude
    [1e308] makes the scaled longitude overflow to infinity, and [int]
    raises [OverflowError]; at the finite longitude [1e19] on the first
    ring [int] succeeds, with an integer beyond [int64], and the remainder
    by the [np.int64] point count raises [OverflowError]. *)
Lemma get_value_raises_on_finite_longitude :
  PrimFloat.is_finite huge_longitude = true /\
  TempToPng.get_value (F := float) 0%float huge_longitude []
    TempToPng.generate_gaussian_lats TempToPng.generate_ring_offsets
  = Raise OverflowError /\
  PrimFloat.is_finite big_longitude = true /\
  py_int (TempToPng.lon_scaled big_longitude 20) = Ok 31830988618379067392 /\
  TempToPng.fits_int64 31830988618379067392 = false /\
  TempToPng.get_value (F := float) half_pi big_longitude []
    TempToPng.generate_gaussian_lats TempToPng.generate_ring_offsets
  = Raise OverflowError.
Proof.
  split; [reflexivity|]. split; [apply binary64_get_value_huge|].
  split; [reflexivity|]. split; [vm_compute; reflexivity|].
  split; [reflexivity|]. apply binary64_get_value_big.
Qed.

(** C1 (amended).  [get_value] terminates for every query and every value
    array.  In every model of the scalars it raises only what [int] raises
    on the scaled longitude, or [OverflowError] when [int] returned an
    integer beyond [int64] and the point count is an [np.int64]; otherwise
    it returns the value at the flat index, which is below [totalPoints], or
    the sentinel 0 when that index is not below the array length.  In
    binary64 the exceptions are [OverflowError] and [ValueError]; latitude
    [np.pi / 2] selects ring 0 and latitude [-np.pi / 2] ring
    [NUM_RINGS - 1]; and on every ring, with [n] points, longitude [-np.pi]
    maps to point [n/2] and the last longitude below [np.pi] to the adjacent
    point [n/2 - 1], both inside [0, n). *)
Theorem get_value_total_unless_int_overflows :
  (forall (F : Type) (num : PyFloat F) (lat lon : F) (data lats : list F),
     let ring := TempToPng.clamped_ring lat lats in
     let n := pointCount ring in
     exists off, getitem TempToPng.generate_ring_offsets ring = Ok off /\
       match py_int (TempToPng.lon_scaled lon n) with
       | Raise e =>
           TempToPng.get_value lat lon data lats
             TempToPng.generate_ring_offsets = Raise e
       | Ok k =>
           if TempToPng.ring_is_int64 (TempToPng.find_ring lat lats)
              && negb (TempToPng.fits_int64 k)
           then
             TempToPng.get_value lat lon data lats
               TempToPng.generate_ring_offsets = Raise OverflowError
           else
             let idx := off + k mod n in
             0 <= k mod n < n /\ 0 <= idx < totalPoints /\
             TempToPng.get_value lat lon data lats
               TempToPng.generate_ring_offsets
             = Ok (if idx <? len data then nth (Z.to_nat idx) data (of_Z 0)
                   else of_Z 0)
       end) /\
  (forall (lat lon : float) (data : list float) (e : exn),
     TempToPng.get_value lat lon data TempToPng.generate_gaussian_lats
       TempToPng.generate_ring_offsets = Raise e ->
     e = OverflowError \/ e = ValueError) /\
  TempToPng.clamped_ring half_pi TempToPng.generate_gaussian_lats = 0 /\
  TempToPng.clamped_ring (fneg half_pi) TempToPng.generate_gaussian_lats
  = TempToPng.NUM_RINGS - 1 /\
  fltb pi_below np_pi = true /\ PrimFloat.next_up pi_below = np_pi /\
  (forall (ring : Z) (b : bool), 0 <= ring < TempToPng.NUM_RINGS ->
     let n := pointCount ring in
     TempToPng.lon_index (F := float) (fneg np_pi) n b = Ok (n / 2) /\
     TempToPng.lon_index pi_below n b = Ok (n / 2 - 1) /\
     0 <= n / 2 - 1 /\ n / 2 < n).
Proof.
  split; [intros F num lat lon data lats; apply get_value_cases|].
  split.
  { intros lat lon data e He.
    destruct (TempToPng.lon_index lon
                (pointCount (TempToPng.clamped_ring lat
                               TempToPng.generate_gaussian_lats))
                (TempToPng.ring_is_int64
                   (TempToPng.find_ring lat TempToPng.generate_gaussian_lats)))
      as [k|e'] eqn:E.
    - destruct (get_value_lon_ok lat lon data _ E) as [off [_ [_ [_ Hv]]]].
      rewrite Hv in He. discriminate He.
    - rewrite (get_value_lon_raise lat lon data _ E) in He.
      injection He as <-. exact (binary64_lon_index_raises _ _ _ E). }
  split; [exact (proj1 binary64_clamped_ring_poles)|].
  split; [exact (proj2 binary64_clamped_ring_poles)|].
  split; [reflexivity|]. split; [reflexivity|].
  intros ring b Hr n.
  pose proof (pointCount_pos Hr) as Hn.
  pose proof (pointCount_multiple_of_4 ring) as H4.
  destruct (binary64_seam b Hr) as [Hw He]. fold n in Hn, H4, Hw, He.
  clearbody n.
  split; [exact Hw|]. split; [exact He|].
  assert (Heven : n = 2 * (n / 2)).
  { rewrite H4 at 2. replace (4 * (n / 4)) with (2 * (n / 4) * 2) by lia.
    rewrite Z.div_mul by lia. lia. }
  lia.
Qed.

Lemma get_value_total_unless_int_overflows_witness :
  TempToPng.lon_index (F := float) (fneg np_pi) (pointCount 0) true
  = Ok (pointCount 0 / 2) /\
  TempToPng.lon_index pi_below (pointCount 0) true
  = Ok (pointCount 0 / 2 - 1).
Proof.
  assert (Hr : 0 <= 0 < TempToPng.NUM_RINGS)
    by (split; [discriminate|reflexivity]).
  destruct get_value_total_unless_int_overflows as (_ & _ & _ & _ & _ & _ & Hb).
  destruct (Hb 0 true Hr) as (Hw & He & _).
  split; [exact Hw|exact He].
Defined.

(** C10, as stated, fails in binary64 for the same reason as C1: on a
    complete array the finite query [(np.pi / 2, 1e19)] raises
    [OverflowError] and returns no grid value. *)
Lemma complete_array_query_raises :
  len (repeat 0%float (Z.to_nat totalPoints)) = totalPoints /\
  PrimFloat.is_finite half_pi = true /\
  PrimFloat.is_finite big_longitude = true /\
  TempToPng.get_value (F := float) half_pi big_longitude
    (repeat 0%float (Z.to_nat totalPoints))
    TempToPng.generate_gaussian_lats TempToPng.generate_ring_offsets
  = Raise OverflowError.
Proof.
  split.
  { unfold len. rewrite repeat_length. apply Z2Nat.id. discriminate. }
  split; [reflexivity|]. split; [reflexivity|].
  apply binary64_get_value_big.
Qed.

(** C10 (amended).  For a value array of [totalPoints] elements and any
    binary64 query: the ring is in [0, NUM_RINGS - 1]; either the longitude
    index raises ([OverflowError] or [ValueError], and so does
    [get_value]), or the flat index, the ring's offset plus the point index
    reduced modulo the ring's point count, lies in [0, totalPoints) and the
    value returned is the array element at that index, never the zero of
    the last line. *)
Theorem flat_index_below_totalPoints (lat lon : float) (data : list float) :
  len data = totalPoints ->
  let ring := TempToPng.clamped_ring lat TempToPng.generate_gaussian_lats in
  let n := pointCount ring in
  0 <= ring <= TempToPng.NUM_RINGS - 1 /\
  exists off,
    getitem TempToPng.generate_ring_offsets ring = Ok off /\
    match TempToPng.lon_index lon n
            (TempToPng.ring_is_int64
               (TempToPng.find_ring lat TempToPng.generate_gaussian_lats)) with
    | Raise e =>
        (e = OverflowError \/ e = ValueError) /\
        TempToPng.get_value lat lon data TempToPng.generate_gaussian_lats
          TempToPng.generate_ring_offsets = Raise e
    | Ok k =>
        0 <= k < n /\ 0 <= off + k < totalPoints /\
        getitem data (off + k) = Ok (nth (Z.to_nat (off + k)) data (of_Z 0)) /\
        TempToPng.get_value lat lon data TempToPng.generate_gaussian_lats
          TempToPng.generate_ring_offsets
        = Ok (nth (Z.to_nat (off + k)) data (of_Z 0))
    end.
Proof.
  intros Hlen. cbv zeta.
  pose proof (clamped_ring_range lat
                (TempToPng.generate_gaussian_lats (F := float))) as Hring.
  split; [lia|].
  destruct (TempToPng.lon_index lon
              (pointCount
                 (TempToPng.clamped_ring lat TempToPng.generate_gaussian_lats))
              (TempToPng.ring_is_int64
                 (TempToPng.find_ring lat TempToPng.generate_gaussian_lats)))
    as [k|e] eqn:E.
  - destruct (@get_value_complete float _ lat lon data
                TempToPng.generate_gaussian_lats k Hlen E)
      as [off [Hoff [Hk [Hidx [Hget Hv]]]]].
    exists off. split; [exact Hoff|].
    split; [exact Hk|]. split; [exact Hidx|]. split; [exact Hget|exact Hv].
  - destruct (ring_block Hring) as [off [Hoff _]].
    exists off. split; [exact Hoff|].
    split; [exact (binary64_lon_index_raises _ _ _ E)|].
    exact (@get_value_lon_raise float _ lat lon data
             TempToPng.generate_gaussian_lats e E).
Qed.

Lemma flat_index_below_totalPoints_witness :
  0 <= TempToPng.clamped_ring 0%float TempToPng.generate_gaussian_lats
    <= TempToPng.NUM_RINGS - 1.
Proof.
  assert (Hlen : len (repeat 0%float (Z.to_nat totalPoints)) = totalPoints).
  { unfold len. rewrite repeat_length. apply Z2Nat.id. discriminate. }
  exact (proj1 (@flat_index_below_totalPoints 0%float 0%float _ Hlen)).
Defined.

(** ** The two renderings of a uniform field *)

Lemma map_const_range {B : Type} (b : B) (n : Z) :
  map (fun _ : Z => b) (range n) = repeat b (Z.to_nat n).
Proof.
  rewrite map_const_repeat. unfold range. now rewrite range_from_length.
Qed.

Lemma get_temp_is_get_value {F : Type} {num : PyFloat F}
  (lat lon : F) (data lats : list F) (offsets : list Z) :
  TempToPngHue.get_temp lat lon data lats offsets
  = TempToPng.get_value lat lon data lats offsets.
Proof. reflexivity. Qed.

(** *** The pixel longitudes in exact arithmetic *)

Lemma exact_pixel_lon_scaled (width x n : Z) :
  0 <= x < width -> 0 < n ->
  (0 <= TempToPng.lon_scaled (F := Q) (TempToPng.pixel_lon width x) n
   < inject_Z n)%Q.
Proof.
  intros Hx Hn.
  assert (Hp : (0 < Exact.pi)%Q) by reflexivity.
  assert (Hw : (0 < inject_Z width)%Q)
    by (change 0%Q with (inject_Z 0); rewrite <- Zlt_Qlt; lia).
  assert (Hn' : (0 < inject_Z n)%Q)
    by (change 0%Q with (inject_Z 0); now rewrite <- Zlt_Qlt).
  assert (Hx0 : (0 <= inject_Z x)%Q)
    by (change 0%Q with (inject_Z 0); rewrite <- Zle_Qle; lia).
  assert (Hx1 : (inject_Z x < inject_Z width)%Q) by (rewrite <- Zlt_Qlt; lia).
  assert (Ht0 : (0 <= inject_Z x / inject_Z width)%Q)
    by (apply Qle_shift_div_l; [exact Hw|lra]).
  assert (Ht1 : (inject_Z x / inject_Z width < 1)%Q)
    by (apply Qlt_shift_div_r; [exact Hw|lra]).
  assert (Hlon : (TempToPng.pixel_lon (F := Q) width x
                  == 2 * (inject_Z x / inject_Z width * Exact.pi)
                     - Exact.pi)%Q).
  { unfold TempToPng.pixel_lon. cbn [fmul fsub fdiv of_Z np_pi Exact.num].
    change (inject_Z 2) with 2%Q. ring. }
  set (t := (inject_Z x / inject_Z width)%Q) in *. clearbody t.
  assert (Ha0 : (0 <= t * Exact.pi)%Q) by (apply Qmult_le_0_compat; lra).
  assert (Ha1 : (t * Exact.pi < 1 * Exact.pi)%Q)
    by (apply Qmult_lt_compat_r; [exact Hp|exact Ht1]).
  assert (Hnorm : (0 <= TempToPng.lon_norm (F := Q) (TempToPng.pixel_lon width x)
                   < 2 * Exact.pi)%Q).
  { unfold TempToPng.lon_norm.
    destruct (fleb (of_Z 0) (TempToPng.pixel_lon (F := Q) width x)) eqn:E.
    - cbn [fleb of_Z Exact.num] in E. apply Qle_bool_iff in E.
      change (inject_Z 0) with 0%Q in E. rewrite Hlon in *. lra.
    - assert (Hneg : ~ (0 <= TempToPng.pixel_lon (F := Q) width x)%Q).
      { intros H. cbn [fleb of_Z Exact.num] in E.
        change (inject_Z 0) with 0%Q in E.
        apply Qle_bool_iff in H. congruence. }
      cbn [fadd fmul of_Z np_pi Exact.num]. change (inject_Z 2) with 2%Q.
      rewrite Hlon in *. lra. }
  set (v := TempToPng.lon_norm (F := Q) (TempToPng.pixel_lon width x)) in *.
  unfold TempToPng.lon_scaled. fold v. clearbody v.
  cbn [fmul fdiv of_Z np_pi Exact.num]. change (inject_Z 2) with 2%Q.
  assert (Hu0 : (0 <= v / (2 * Exact.pi))%Q)
    by (apply Qle_shift_div_l; lra).
  assert (Hu1 : (v / (2 * Exact.pi) < 1)%Q)
    by (apply Qlt_shift_div_r; lra).
  set (u := (v / (2 * Exact.pi))%Q) in *. clearbody u. split.
  - apply Qmult_le_0_compat; lra.
  - setoid_replace (inject_Z n) with (1 * inject_Z n)%Q at 2 by ring.
    apply Qmult_lt_compat_r; [exact Hn'|exact Hu1].
Qed.

Lemma exact_pixel_lon_index (width x n : Z) (b : bool) :
  0 <= x < width -> 0 < n < 2 ^ 63 ->
  exists k,
    TempToPng.lon_index (F := Q) (TempToPng.pixel_lon width x) n b = Ok k /\
    0 <= k < n.
Proof.
  intros Hx Hn.
  destruct (@exact_pixel_lon_scaled width x n Hx ltac:(lia)) as [H0 H1].
  unfold TempToPng.lon_index, TempToPng.py_mod. cbn [py_int Exact.num bind].
  set (q := TempToPng.lon_scaled (F := Q) (TempToPng.pixel_lon width x) n) in *.
  clearbody q.
  assert (Hk : 0 <= Exact.trunc q < n).
  { rewrite trunc_nonneg by exact H0. split.
    - change 0 with (Qfloor (inject_Z 0)). apply Qfloor_resp_le. exact H0.
    - pose proof (Qfloor_le q) as Hf.
      assert (Hlt : (inject_Z (Qfloor q) < inject_Z n)%Q) by lra.
      now rewrite <- Zlt_Qlt in Hlt. }
  assert (Hfit : TempToPng.fits_int64 (Exact.trunc q) = true).
  { unfold TempToPng.fits_int64. apply andb_true_intro. split.
    - apply Z.leb_le. assert (- 2 ^ 63 <= 0) by discriminate. lia.
    - apply Z.ltb_lt. lia. }
  rewrite Hfit. cbn [negb]. rewrite andb_false_r.
  exists (Exact.trunc q). split; [|exact Hk].
  f_equal. apply Z.mod_small. exact Hk.
Qed.

Lemma exact_pixel_sample (lat : Q) (width x : Z) (data lats : list Q) :
  0 <= x < width ->
  exists idx, 0 <= idx < totalPoints /\
    TempToPng.get_value lat (TempToPng.pixel_lon width x) data lats
      TempToPng.generate_ring_offsets
    = Ok (if idx <? len data then nth (Z.to_nat idx) data 0%Q else 0%Q).
Proof.
  intros Hx.
  pose proof (pointCount_pos (clamped_ring_range lat lats)) as Hn.
  assert (Hn' : 0 < pointCount (TempToPng.clamped_ring lat lats) < 2 ^ 63).
  { assert (5136 < 2 ^ 63) by reflexivity. lia. }
  destruct (@exact_pixel_lon_index width x _
              (TempToPng.ring_is_int64 (TempToPng.find_ring lat lats)) Hx Hn')
    as [k [E Hk]].
  destruct (@get_value_lon_ok Q _ lat (TempToPng.pixel_lon width x) data lats
              k E) as [off [_ [_ [Hidx Hv]]]].
  exists (off + k). split; [exact Hidx|exact Hv].
Qed.

(** In exact arithmetic a uniform complete array is sampled as its value at
    every pixel longitude, and an empty array as zero. *)
Lemma exact_get_value_uniform (lat c : Q) (width x : Z) (lats : list Q) :
  0 <= x < width ->
  TempToPng.get_value lat (TempToPng.pixel_lon width x)
    (repeat c (Z.to_nat totalPoints)) lats TempToPng.generate_ring_offsets
  = Ok c.
Proof.
  intros Hx.
  destruct (@exact_pixel_sample lat width x (repeat c (Z.to_nat totalPoints))
              lats Hx) as [idx [Hidx Hv]].
  rewrite Hv.
  assert (Hlen : len (repeat c (Z.to_nat totalPoints)) = totalPoints).
  { unfold len. rewrite repeat_length. apply Z2Nat.id. discriminate. }
  rewrite Hlen. destruct (Z.ltb_spec idx totalPoints); [|lia].
  f_equal. apply nth_repeat_lt. lia.
Qed.

Lemma exact_get_value_empty (lat : Q) (width x : Z) (lats : list Q) :
  0 <= x < width ->
  TempToPng.get_value lat (TempToPng.pixel_lon width x) [] lats
    TempToPng.generate_ring_offsets = Ok 0%Q.
Proof.
  intros Hx.
  destruct (@exact_pixel_sample lat width x [] lats Hx) as [idx [Hidx Hv]].
  rewrite Hv. change (len (@nil Q)) with 0.
  destruct (Z.ltb_spec idx 0); [lia|reflexivity].
Qed.

Lemma exact_temp_55_red :
  TempToPngHue.temp_to_rgb 55%Q = Ok (255, 0, 0).
Proof. vm_compute. reflexivity. Qed.

Lemma binary64_temp_55_red :
  TempToPngHue.temp_to_rgb 55%float = Ok (255, 0, 0).
Proof. vm_compute. reflexivity. Qed.

Lemma exact_render_hue_uniform_55 (width height : Z) :
  TempToPngHue.render_hue width height (repeat 55%Q (Z.to_nat totalPoints))
  = Ok (repeat (repeat (255, 0, 0) (Z.to_nat width)) (Z.to_nat height)).
Proof.
  unfold TempToPngHue.render_hue. cbv zeta.
  rewrite <- (map_const_range (repeat (255, 0, 0) (Z.to_nat width)) height).
  apply mapM_ok. intros y _.
  rewrite <- (map_const_range (255, 0, 0) width).
  apply mapM_ok. intros x Hx. apply in_range in Hx.
  rewrite get_temp_is_get_value, (exact_get_value_uniform _ _ _ Hx).
  cbn [bind]. exact exact_temp_55_red.
Qed.

(** C5.  A value array of 6,599,680 elements all equal to 55.0, rendered in
    hue mode to 1024 x 512 pixels, gives [t = 1] and the pure red
    [(255, 0, 0)] at every pixel; the colour map gives the same triple for
    55.0 in binary64. *)
Theorem uniform_55_field_renders_pure_red :
  totalPoints = 6599680 /\ TempToPng.WIDTH = 1024 /\ TempToPng.HEIGHT = 512 /\
  (TempToPngHue.temp_fraction 55%Q == 1)%Q /\
  TempToPngHue.temp_to_rgb 55%Q = Ok (255, 0, 0) /\
  TempToPngHue.temp_to_rgb 55%float = Ok (255, 0, 0) /\
  TempToPngHue.main_image (repeat 55%Q (Z.to_nat totalPoints))
  = Ok (repeat (repeat (255, 0, 0) (Z.to_nat TempToPng.WIDTH))
          (Z.to_nat TempToPng.HEIGHT)).
Proof.
  split; [reflexivity|]. split; [reflexivity|]. split; [reflexivity|].
  split; [reflexivity|].
  split; [exact exact_temp_55_red|].
  split; [exact binary64_temp_55_red|].
  apply exact_render_hue_uniform_55.
Qed.

Lemma exact_np_min_const (c : Q) (l : list Q) :
  l <> [] -> Forall (eq c) l -> TempToPng.np_min l = Ok c.
Proof.
  intros Hne Hl. destruct l as [|x l]; [congruence|].
  inversion Hl as [|? ? Hx Hl']; subst. cbn [TempToPng.np_min]. f_equal.
  clear Hne Hl. induction Hl' as [|y l Hy Hl' IH]; [reflexivity|].
  subst y. cbn [fold_left is_nan Exact.num].
  assert (E : fltb x x = false) by (apply exact_fltb_false; apply Qle_refl).
  rewrite E. exact IH.
Qed.

Lemma exact_np_max_const (c : Q) (l : list Q) :
  l <> [] -> Forall (eq c) l -> TempToPng.np_max l = Ok c.
Proof.
  intros Hne Hl. destruct l as [|x l]; [congruence|].
  inversion Hl as [|? ? Hx Hl']; subst. cbn [TempToPng.np_max]. f_equal.
  clear Hne Hl. induction Hl' as [|y l Hy Hl' IH]; [reflexivity|].
  subst y. cbn [fold_left is_nan Exact.num].
  assert (E : fltb x x = false) by (apply exact_fltb_false; apply Qle_refl).
  rewrite E. exact IH.
Qed.

Lemma concat_constant {A : Type} (c : A) (w : nat) (h : nat) :
  Forall (eq c) (concat (repeat (repeat c w) h)).
Proof.
  induction h as [|h IH]; [constructor|].
  cbn [repeat concat]. apply Forall_app. split; [|exact IH].
  apply Forall_forall. intros x Hx. symmetry. exact (repeat_spec _ _ _ Hx).
Qed.

Lemma concat_constant_nonempty {A : Type} (c : A) (w h : nat) :
  (0 < w)%nat -> (0 < h)%nat -> concat (repeat (repeat c w) h) <> [].
Proof.
  intros Hw Hh. destruct h as [|h]; [lia|]. destruct w as [|w]; [lia|].
  discriminate.
Qed.

Lemma exact_data_range_constant (c : Q) : TempToPng.data_range_of c c = 1%Q.
Proof.
  unfold TempToPng.data_range_of.
  assert (E : fltb c c = false) by (apply exact_fltb_false; apply Qle_refl).
  rewrite E. reflexivity.
Qed.

Lemma exact_gray_level_constant (c : Q) : TempToPng.gray_level c c 1%Q = Ok 0.
Proof.
  unfold TempToPng.gray_level. cbv zeta. cbn [py_int Exact.num bind].
  rewrite trunc_zero; [reflexivity|].
  cbn [fdiv fmul fsub of_Z f32 Exact.num]. change (inject_Z 255) with 255%Q.
  field.
Qed.

Lemma exact_second_pass_constant (c : Q) (w h : nat) :
  (0 < w)%nat -> (0 < h)%nat ->
  TempToPng.second_pass (repeat (repeat c w) h) = Ok (repeat (repeat 0 w) h).
Proof.
  intros Hw Hh. unfold TempToPng.second_pass.
  rewrite (exact_np_min_const (concat_constant_nonempty c Hw Hh)
             (concat_constant c w h)).
  rewrite (exact_np_max_const (concat_constant_nonempty c Hw Hh)
             (concat_constant c w h)).
  cbn [bind]. rewrite exact_data_range_constant.
  rewrite (mapM_ok _ (fun row : list Q => map (fun _ : Q => 0) row)).
  - f_equal. rewrite map_repeat. f_equal. rewrite map_const_repeat.
    now rewrite repeat_length.
  - intros row Hrow. apply repeat_spec in Hrow. subst row.
    apply mapM_ok. intros val Hval. apply repeat_spec in Hval. subst val.
    apply exact_gray_level_constant.
Qed.

Lemma exact_first_pass_uniform (c : Q) (width height : Z) :
  TempToPng.first_pass width height (repeat c (Z.to_nat totalPoints))
    TempToPng.generate_gaussian_lats TempToPng.generate_ring_offsets
  = Ok (repeat (repeat c (Z.to_nat width)) (Z.to_nat height)).
Proof.
  unfold TempToPng.first_pass.
  rewrite <- (map_const_range (repeat c (Z.to_nat width)) height).
  apply mapM_ok. intros y _.
  rewrite <- (map_const_range c width).
  apply mapM_ok. intros x Hx. apply in_range in Hx.
  rewrite (exact_get_value_uniform _ _ _ Hx). reflexivity.
Qed.

(** *** A constant buffer in any ordered model, and in binary64 *)

Section ConstantBuffer.

Context {F : Type} {num : PyFloat F}.
Variable c : F.
Hypothesis Hirr : fltb c c = false.
Hypothesis Hnum : is_nan c = false.

Lemma np_min_const (l : list F) :
  l <> [] -> Forall (eq c) l -> TempToPng.np_min l = Ok c.
Proof.
  intros Hne Hl. destruct l as [|x l]; [congruence|].
  inversion Hl as [|? ? Hx Hl']; subst. cbn [TempToPng.np_min]. f_equal.
  clear Hne Hl. induction Hl' as [|y l Hy Hl' IH]; [reflexivity|].
  subst y. cbn [fold_left]. rewrite Hnum, Hirr. exact IH.
Qed.

Lemma np_max_const (l : list F) :
  l <> [] -> Forall (eq c) l -> TempToPng.np_max l = Ok c.
Proof.
  intros Hne Hl. destruct l as [|x l]; [congruence|].
  inversion Hl as [|? ? Hx Hl']; subst. cbn [TempToPng.np_max]. f_equal.
  clear Hne Hl. induction Hl' as [|y l Hy Hl' IH]; [reflexivity|].
  subst y. cbn [fold_left]. rewrite Hnum, Hirr. exact IH.
Qed.

Lemma data_range_constant : TempToPng.data_range_of c c = of_Z 1.
Proof. unfold TempToPng.data_range_of. now rewrite Hirr. Qed.

Hypothesis Hgray : TempToPng.gray_level c c (of_Z 1) = Ok 0.

Lemma second_pass_constant (w h : nat) :
  (0 < w)%nat -> (0 < h)%nat ->
  TempToPng.second_pass (repeat (repeat c w) h) = Ok (repeat (repeat 0 w) h).
Proof.
  intros Hw Hh. unfold TempToPng.second_pass.
  rewrite (np_min_const (concat_constant_nonempty c Hw Hh)
             (concat_constant c w h)).
  rewrite (np_max_const (concat_constant_nonempty c Hw Hh)
             (concat_constant c w h)).
  cbn [bind]. rewrite data_range_constant.
  rewrite (mapM_ok _ (fun row : list F => map (fun _ : F => 0) row)).
  - f_equal. rewrite map_repeat. f_equal. rewrite map_const_repeat.
    now rewrite repeat_length.
  - intros row Hrow. apply repeat_spec in Hrow. subst row.
    apply mapM_ok. intros val Hval. apply repeat_spec in Hval. subst val.
    exact Hgray.
Qed.

End ConstantBuffer.

Lemma binary64_finite_cases (c : float) :
  PrimFloat.is_finite c = true ->
  (exists s, Prim2SF c = S754_zero s) \/
  (exists s m e, Prim2SF c = S754_finite s m e).
Proof.
  unfold PrimFloat.is_finite, PrimFloat.is_infinity, PrimFloat.is_nan.
  rewrite !FloatAxioms.eqb_spec, FloatAxioms.abs_spec.
  assert (Hinf : Prim2SF infinity = S754_infinity false) by reflexivity.
  rewrite Hinf.
  destruct (Prim2SF c) as [s|s| |s m e]; intros H.
  - left. now exists s.
  - destruct s; discriminate H.
  - discriminate H.
  - right. now exists s, m, e.
Qed.

Lemma binary64_finite_number (c : float) :
  PrimFloat.is_finite c = true -> is_nan c = false.
Proof.
  intros H. apply binary64_not_nan.
  destruct (@binary64_finite_cases c H) as [[s E]|[s [m [e E]]]];
    rewrite E; discriminate.
Qed.

(** A finite number minus itself is [+0]. *)
Lemma binary64_sub_self (c : float) :
  PrimFloat.is_finite c = true -> PrimFloat.sub c c = 0%float.
Proof.
  intros H. apply Prim2SF_inj. rewrite FloatAxioms.sub_spec.
  destruct (@binary64_finite_cases c H) as [[s E]|[s [m [e E]]]]; rewrite E.
  - destruct s; reflexivity.
  - unfold SF64sub, SFsub. cbv zeta. rewrite Z.min_id.
    unfold shl_align. rewrite !Z.sub_diag. reflexivity.
Qed.

Lemma binary64_gray_level_constant (c : float) :
  PrimFloat.is_finite c = true -> f32 c = c ->
  TempToPng.gray_level c c (of_Z 1) = Ok 0.
Proof.
  intros Hfin H32. unfold TempToPng.gray_level. cbv zeta.
  rewrite H32. cbn [fsub Binary64.num].
  rewrite (binary64_sub_self c Hfin). reflexivity.
Qed.

Lemma binary64_second_pass_constant (c : float) (w h : nat) :
  PrimFloat.is_finite c = true -> f32 c = c ->
  (0 < w)%nat -> (0 < h)%nat ->
  TempToPng.second_pass (repeat (repeat c w) h) = Ok (repeat (repeat 0 w) h).
Proof.
  intros Hfin H32 Hw Hh.
  apply second_pass_constant; [| |exact (binary64_gray_level_constant Hfin H32)
                              |exact Hw|exact Hh].
  - exact (proj1 binary64_ordered c).
  - exact (binary64_finite_number c Hfin).
Qed.

(** C6, as the spec states it, fails for an infinite value: a buffer that
    is constantly [+inf] has its maximum equal to its minimum, the range is
    replaced by 1, and [val - min] is [inf - inf], a NaN, on which [int]
    raises [ValueError]. *)
Lemma constant_infinite_buffer_raises :
  f32 infinity = infinity /\
  TempToPng.np_min (concat (repeat (repeat infinity 2) 2)) = Ok infinity /\
  TempToPng.np_max (concat (repeat (repeat infinity 2) 2)) = Ok infinity /\
  TempToPng.data_range_of infinity infinity = of_Z 1 /\
  TempToPng.gray_level infinity infinity (of_Z 1) = Raise ValueError /\
  TempToPng.second_pass (repeat (repeat infinity 2) 2) = Raise ValueError.
Proof. repeat split; vm_compute; reflexivity. Qed.

(** C6 (amended).  In grayscale mode, when the reprojected buffer is
    constantly a finite [np.float32] value [c], the observed minimum and
    maximum are both [c], the range is replaced by 1, no division by zero
    happens, and the second pass gives gray level
    [int(255 * (c - c) / 1)] clamped to [0, 255], that is 0, at every
    pixel, for every raster size; [main] then returns that image whenever
    its first pass returned such a buffer.  In exact arithmetic a uniform
    field of any value is rendered so, for every raster size. *)
Theorem constant_buffer_renders_gray_zero (c : float) (width height : Z) :
  PrimFloat.is_finite c = true -> f32 c = c ->
  0 < width -> 0 < height ->
  let values := repeat (repeat c (Z.to_nat width)) (Z.to_nat height) in
  TempToPng.np_min (concat values) = Ok c /\
  TempToPng.np_max (concat values) = Ok c /\
  TempToPng.data_range_of c c = of_Z 1 /\
  TempToPng.gray_level c c (TempToPng.data_range_of c c) = Ok 0 /\
  TempToPng.second_pass values
  = Ok (repeat (repeat 0 (Z.to_nat width)) (Z.to_nat height)) /\
  (forall data : list float, data <> [] ->
     TempToPng.first_pass width height data TempToPng.generate_gaussian_lats
       TempToPng.generate_ring_offsets = Ok values ->
     TempToPng.render width height data
     = Ok (repeat (repeat 0 (Z.to_nat width)) (Z.to_nat height))) /\
  (forall q : Q,
     TempToPng.render width height (repeat q (Z.to_nat totalPoints))
     = Ok (repeat (repeat 0 (Z.to_nat width)) (Z.to_nat height))).
Proof.
  intros Hfin H32 Hw Hh values.
  assert (Hw' : (0 < Z.to_nat width)%nat) by lia.
  assert (Hh' : (0 < Z.to_nat height)%nat) by lia.
  pose proof (proj1 binary64_ordered c) as Hirr.
  pose proof (binary64_finite_number c Hfin) as Hnum.
  pose proof (binary64_second_pass_constant Hfin H32 Hw' Hh') as Hsecond.
  fold values in Hsecond.
  split; [exact (np_min_const Hirr Hnum (concat_constant_nonempty c Hw' Hh')
                   (concat_constant c _ _))|].
  split; [exact (np_max_const Hirr Hnum (concat_constant_nonempty c Hw' Hh')
                   (concat_constant c _ _))|].
  split; [exact (data_range_constant c Hirr)|].
  split; [rewrite (data_range_constant c Hirr);
          exact (binary64_gray_level_constant Hfin H32)|].
  split; [exact Hsecond|].
  split.
  - intros data Hne Hfirst. unfold TempToPng.render.
    destruct data as [|d data]; [congruence|].
    cbn [TempToPng.np_min TempToPng.np_max bind].
    rewrite Hfirst. cbn [bind]. exact Hsecond.
  - intros q. unfold TempToPng.render.
    assert (Hne : repeat q (Z.to_nat totalPoints) <> []).
    { intros E. apply (f_equal (@length Q)) in E. rewrite repeat_length in E.
      simpl in E. assert (0 < totalPoints) by reflexivity. lia. }
    assert (Hall : Forall (eq q) (repeat q (Z.to_nat totalPoints))).
    { apply Forall_forall. intros x Hx. symmetry. exact (repeat_spec _ _ _ Hx). }
    rewrite (exact_np_min_const Hne Hall), (exact_np_max_const Hne Hall).
    cbn [bind]. rewrite exact_first_pass_uniform. cbn [bind].
    exact (exact_second_pass_constant q Hw' Hh').
Qed.

Lemma constant_buffer_renders_gray_zero_witness :
  TempToPng.second_pass (repeat (repeat 20%float (Z.to_nat 4)) (Z.to_nat 2))
  = Ok (repeat (repeat 0 (Z.to_nat 4)) (Z.to_nat 2)).
Proof.
  exact (proj1 (proj2 (proj2 (proj2 (proj2
    (@constant_buffer_renders_gray_zero 20%float 4 2
       eq_refl eq_refl eq_refl eq_refl)))))).
Defined.

(** ** The command line *)

Section CommandLine.

Import String.
Local Open Scope string_scope.

Lemma replace_scan_suffix (stem : string) :
  index 0 ".bin" (stem ++ ".bin") = Some (String.length stem) ->
  Cli.replace_scan ".bin" ".png" 0 (stem ++ ".bin") = stem ++ ".png".
Proof.
  induction stem as [|c stem IH]; intros H; [reflexivity|].
  change ((String c stem) ++ ".bin") with (String c (stem ++ ".bin")) in *.
  cbn [index] in H. cbn [Cli.replace_scan].
  destruct (prefix ".bin" (String c (stem ++ ".bin"))) eqn:E; [discriminate|].
  destruct (index 0 ".bin" (stem ++ ".bin")) as [k|] eqn:Ek; [|discriminate].
  cbn [String.length] in H. injection H as H. subst k.
  rewrite IH by reflexivity. reflexivity.
Qed.

(** C9, as the spec states it, fails on the code: without an input path
    the usage text is printed on standard output, and nothing is written
    on standard error. *)
Lemma usage_printed_on_standard_output :
  Cli.main_args Cli.usage_scripts ["temp-to-png.py"]
  = Ok (Cli.Exited [Cli.usage_scripts] [] 1) /\
  Cli.main_args Cli.usage_test ["temp-to-png.py"]
  = Ok (Cli.Exited [Cli.usage_test] [] 1).
Proof. split; reflexivity. Qed.

(** C9 (amended).  Without an input path the wrapper prints the usage text
    on standard output, writes nothing on standard error and exits with
    status 1.  With an input path that ends in [.bin], and holds no [.bin]
    before that suffix, and no output path, the output path is the input
    path with its [.bin] suffix replaced by [.png].  A third argument is
    taken as the output path. *)
Theorem main_args_usage_and_default_output :
  (forall usage argv, len argv < 2 ->
     Cli.main_args usage argv = Ok (Cli.Exited [usage] [] 1)) /\
  (forall usage prog stem,
     index 0 ".bin" (stem ++ ".bin") = Some (String.length stem) ->
     Cli.main_args usage [prog; stem ++ ".bin"]
     = Ok (Cli.Files (stem ++ ".bin") (Cli.replace_bin_suffix stem))) /\
  (forall usage prog input_file output_file rest,
     Cli.main_args usage (prog :: input_file :: output_file :: rest)
     = Ok (Cli.Files input_file output_file)).
Proof.
  split; [|split].
  - intros usage argv Hlen. unfold Cli.main_args.
    destruct (Z.ltb_spec (len argv) 2); [reflexivity|lia].
  - intros usage prog stem H.
    change (Cli.main_args usage [prog; stem ++ ".bin"])
      with (Ok (Cli.Files (stem ++ ".bin")
                  (Cli.replace_scan ".bin" ".png" 0 (stem ++ ".bin")))).
    now rewrite (replace_scan_suffix stem H).
  - intros usage prog input_file output_file rest. unfold Cli.main_args.
    assert (Hlen : len (prog :: input_file :: output_file :: rest)
                   = 3 + len rest).
    { unfold len. cbn [List.length]. lia. }
    assert (Hrest : 0 <= len rest) by (unfold len; lia).
    destruct (Z.ltb_spec (len (prog :: input_file :: output_file :: rest)) 2);
      [lia|].
    destruct (Z.ltb_spec 2 (len (prog :: input_file :: output_file :: rest)));
      [|lia].
    rewrite (getitem_in_range _ EmptyString) by lia.
    rewrite (getitem_in_range _ EmptyString) by lia.
    reflexivity.
Qed.

Lemma main_args_usage_and_default_output_witness :
  Cli.main_args Cli.usage_scripts [] = Ok (Cli.Exited [Cli.usage_scripts] [] 1) /\
  Cli.main_args Cli.usage_test ["temp-to-png.py"; "2t.temp" ++ ".bin"]
  = Ok (Cli.Files ("2t.temp" ++ ".bin") (Cli.replace_bin_suffix "2t.temp")).
Proof.
  split.
  - apply (proj1 main_args_usage_and_default_output). reflexivity.
  - apply (proj1 (proj2 main_args_usage_and_default_output)).
    reflexivity.
Defined.

End CommandLine.

(** ** The fixture generators *)

Section Fixtures.

Import RealNum.
Local Open Scope R_scope.

Lemma Rltb_true (a b : R) : Rltb a b = true <-> a < b.
Proof. unfold Rltb. destruct (Rlt_dec a b); split; auto; discriminate. Qed.

Lemma Rltb_false (a b : R) : Rltb a b = false <-> b <= a.
Proof.
  unfold Rltb. destruct (Rlt_dec a b) as [H|H]; split; intros H'.
  - discriminate.
  - exfalso. Lra.lra.
  - Lra.lra.
  - reflexivity.
Qed.

Lemma Rleb_true (a b : R) : Rleb a b = true <-> a <= b.
Proof. unfold Rleb. destruct (Rle_dec a b); split; auto; discriminate. Qed.

Lemma Rleb_false (a b : R) : Rleb a b = false <-> b < a.
Proof.
  unfold Rleb. destruct (Rle_dec a b) as [H|H]; split; intros H'.
  - discriminate.
  - exfalso. Lra.lra.
  - Lra.lra.
  - reflexivity.
Qed.

Lemma np_div_finite (a b : R) : b <> 0 -> np_div a b = Some (a / b).
Proof. intros Hb. unfold np_div. destruct (Req_dec_T b 0); [contradiction|reflexivity]. Qed.

Lemma np_div_zero (a : R) : np_div a 0 = None.
Proof. unfold np_div. destruct (Req_dec_T 0 0); [reflexivity|contradiction]. Qed.

Lemma wrap_dlon_zero : wrap_dlon 0 = 0.
Proof.
  unfold wrap_dlon. pose proof PI_RGT_0.
  rewrite (proj2 (Rltb_false PI 0)) by Lra.lra.
  rewrite (proj2 (Rltb_false 0 (- PI))) by Lra.lra. reflexivity.
Qed.

(** *** The cyclone *)

Lemma wind_speed_inside (dist max_wind core_radius outer_radius : R) :
  0 <= dist < core_radius ->
  WindFixtures.wind_speed dist max_wind core_radius outer_radius
  = Some (max_wind * (dist / core_radius)).
Proof.
  intros H. unfold WindFixtures.wind_speed, WindFixtures.inside_core_speed.
  rewrite (proj2 (Rltb_true dist core_radius)) by Lra.lra.
  rewrite np_div_finite by Lra.lra. cbn [obind].
  rewrite (proj2 (Rleb_false core_radius dist)) by Lra.lra. reflexivity.
Qed.

Lemma wind_speed_between (dist max_wind core_radius outer_radius : R) :
  core_radius <= dist < outer_radius ->
  WindFixtures.wind_speed dist max_wind core_radius outer_radius
  = Some (max_wind
          * (1 - (dist - core_radius) / (outer_radius - core_radius))).
Proof.
  intros H. unfold WindFixtures.wind_speed, WindFixtures.between_speed.
  rewrite (proj2 (Rltb_false dist core_radius)) by Lra.lra. cbn [obind].
  rewrite (proj2 (Rleb_true core_radius dist)) by Lra.lra.
  rewrite (proj2 (Rltb_true dist outer_radius)) by Lra.lra. cbn [andb].
  rewrite np_div_finite by Lra.lra. reflexivity.
Qed.

Lemma wind_speed_outside (dist max_wind core_radius outer_radius : R) :
  core_radius <= dist -> outer_radius <= dist ->
  WindFixtures.wind_speed dist max_wind core_radius outer_radius = Some 0.
Proof.
  intros H1 H2. unfold WindFixtures.wind_speed.
  rewrite (proj2 (Rltb_false dist core_radius)) by Lra.lra. cbn [obind].
  rewrite (proj2 (Rltb_false dist outer_radius)) by Lra.lra.
  rewrite andb_false_r. reflexivity.
Qed.

Lemma center_distance_zero (lat lon : R) :
  WindFixtures.center_distance lat lon lat lon = 0.
Proof.
  unfold WindFixtures.center_distance.
  replace (lon - lon) with 0 by ring. rewrite wrap_dlon_zero.
  replace ((lat - lat) ^ 2 + (0 * cos lat) ^ 2) with 0 by ring.
  apply sqrt_0.
Qed.

(** C7.  With [0 < core_radius < outer_radius]: at distance [core_radius]
    the inside-core formula and the between-zone formula both give
    [max_wind], and so does the profile; at a grid point at the exact centre
    the distance and the speed are 0 and both wind components are the finite
    number 0, the divisions being by the floor 1e-6; from [outer_radius] on
    the speed is 0. *)
Theorem cyclone_profile_continuous_and_guarded
  (max_wind core_radius outer_radius : R) :
  0 < core_radius -> core_radius < outer_radius ->
  WindFixtures.inside_core_speed core_radius max_wind core_radius
  = Some max_wind /\
  WindFixtures.between_speed core_radius max_wind core_radius outer_radius
  = Some max_wind /\
  WindFixtures.wind_speed core_radius max_wind core_radius outer_radius
  = Some max_wind /\
  (forall center_lat center_lon,
     WindFixtures.center_distance center_lat center_lon center_lat center_lon
     = 0 /\
     WindFixtures.wind_speed 0 max_wind core_radius outer_radius = Some 0 /\
     np_div 0 (Rmax 0 1e-6) = Some 0 /\
     WindFixtures.cyclone_point center_lat center_lon center_lat center_lon
       max_wind core_radius outer_radius = Some (0, 0)) /\
  (forall dist, outer_radius <= dist ->
     WindFixtures.wind_speed dist max_wind core_radius outer_radius = Some 0).
Proof.
  intros Hcore Houter.
  assert (Hfloor : Rmax 0 1e-6 = 1e-6) by (apply Rmax_right; Lra.lra).
  split.
  { unfold WindFixtures.inside_core_speed. rewrite np_div_finite by Lra.lra.
    cbn [obind]. f_equal. field. Lra.lra. }
  split.
  { unfold WindFixtures.between_speed. rewrite np_div_finite by Lra.lra.
    cbn [obind]. f_equal. field. Lra.lra. }
  split.
  { rewrite wind_speed_between by Lra.lra. f_equal. field. Lra.lra. }
  split.
  - intros center_lat center_lon.
    split; [apply center_distance_zero|].
    assert (Hspeed : WindFixtures.wind_speed 0 max_wind core_radius outer_radius
                     = Some 0).
    { rewrite wind_speed_inside by Lra.lra. f_equal. field. Lra.lra. }
    split; [exact Hspeed|].
    split; [rewrite Hfloor, np_div_finite by Lra.lra; f_equal; field|].
    unfold WindFixtures.cyclone_point.
    replace (center_lon - center_lon) with 0 by ring. rewrite wrap_dlon_zero.
    replace ((center_lat - center_lat) ^ 2 + (0 * cos center_lat) ^ 2)
      with 0 by ring.
    rewrite sqrt_0, Hspeed, Hfloor. cbn [obind].
    rewrite !np_div_finite by Lra.lra. cbn [obind].
    f_equal. f_equal; ring.
  - intros dist Hd. apply wind_speed_outside; Lra.lra.
Qed.

Lemma cyclone_profile_continuous_and_guarded_witness :
  WindFixtures.wind_speed 0.1 25.0 0.1 0.8 = Some 25.0 /\
  WindFixtures.cyclone_point 0.0 0.0 0.0 0.0 25.0 0.1 0.8 = Some (0, 0).
Proof.
  assert (H1 : 0 < 0.1) by Lra.lra. assert (H2 : 0.1 < 0.8) by Lra.lra.
  pose proof (@cyclone_profile_continuous_and_guarded 25.0 0.1 0.8 H1 H2) as H.
  split.
  - exact (proj1 (proj2 (proj2 H))).
  - exact (proj2 (proj2 (proj2 (proj1 (proj2 (proj2 (proj2 H))) 0.0 0.0)))).
Defined.

End Fixtures.

Section Pressure.

Import RealNum.
Local Open Scope R_scope.

(** The two wraps differ only at [-PI], where they give [-PI] and [PI]. *)
Lemma wrap_dlon_square (d : R) :
  (wrap_dlon d) ^ 2 = (PressureFixtures.wrap_half_open d) ^ 2.
Proof.
  unfold wrap_dlon, PressureFixtures.wrap_half_open. pose proof PI_RGT_0 as Hpi.
  destruct (Rltb PI d) eqn:E1.
  - apply Rltb_true in E1.
    rewrite (proj2 (Rltb_false (d - 2 * PI) (- PI))) by Lra.lra. reflexivity.
  - apply Rltb_false in E1.
    destruct (Rltb d (- PI)) eqn:E2.
    + apply Rltb_true in E2.
      rewrite (proj2 (Rleb_true d (- PI))) by Lra.lra. reflexivity.
    + apply Rltb_false in E2.
      destruct (Rleb d (- PI)) eqn:E3; [|reflexivity].
      apply Rleb_true in E3.
      assert (Hd : d = - PI) by Lra.lra. subst d. ring.
Qed.

Lemma wrap_half_open_range (d : R) :
  - (3 * PI) < d <= 3 * PI ->
  - PI < PressureFixtures.wrap_half_open d <= PI.
Proof.
  intros Hd. unfold PressureFixtures.wrap_half_open.
  destruct (Rltb PI d) eqn:E1.
  - apply Rltb_true in E1. Lra.lra.
  - apply Rltb_false in E1.
    destruct (Rleb d (- PI)) eqn:E2.
    + apply Rleb_true in E2. Lra.lra.
    + apply Rleb_false in E2. Lra.lra.
Qed.

Lemma angular_distance_spec (lat1 lon1 lat2 lon2 : R) :
  PressureFixtures.angular_distance lat1 lon1 lat2 lon2
  = PressureFixtures.spec_distance lat1 lon1 lat2 lon2.
Proof.
  unfold PressureFixtures.angular_distance, PressureFixtures.spec_distance.
  cbv zeta. f_equal. f_equal.
  rewrite !Rpow_mult_distr. now rewrite wrap_dlon_square.
Qed.

Lemma base_plus_anomalies_spec (lat lon : R) :
  PressureFixtures.base_plus_anomalies lat lon
  = PressureFixtures.spec_pressure lat lon.
Proof.
  unfold PressureFixtures.base_plus_anomalies, PressureFixtures.spec_pressure,
    PressureFixtures.spec_anomaly. cbv zeta.
  rewrite !angular_distance_spec. ring.
Qed.

Lemma np_clip_range (x lo hi : R) :
  lo <= hi -> lo <= PressureFixtures.np_clip x lo hi <= hi.
Proof.
  intros H. unfold PressureFixtures.np_clip, Rmin, Rmax.
  destruct (Rle_dec x lo); destruct (Rle_dec hi _); Lra.lra.
Qed.

Lemma source_longitude_range (c : R) :
  In c PressureFixtures.source_longitudes -> - PI < c < 2 * PI.
Proof.
  unfold PressureFixtures.source_longitudes, np_radians, PressureFixtures.LOW_LON,
    PressureFixtures.HIGH_LON.
  pose proof PI_RGT_0 as Hpi. simpl.
  intros [H|[H|[H|[H|[]]]]]; subst c; Lra.lra.
Qed.

(** C8.  Before the noise, the pressure at a grid point is the base
    pressure plus four anomalies, one for each of the centres low and high
    and one for the antipodal mirror of each (latitude negated, longitude
    plus PI), each [(target - base) * exp (-0.5 * (dist / sigma)^2)] with
    [sigma = INFLUENCE_RADIUS / 2] and [dist] the distance with the longitude
    difference wrapped into (-PI, PI]; for a grid longitude in [0, 2 PI)
    that wrap does land in (-PI, PI]; after the noise is added and the field
    clipped, every element lies in [97600, 104800]. *)
Theorem pressure_is_clamped_sum_of_four_anomalies (lats lons noise : list R) :
  length lons = length lats -> length noise = length lats ->
  (forall lat lon,
     PressureFixtures.base_plus_anomalies lat lon
     = PressureFixtures.spec_pressure lat lon) /\
  (forall lon c, 0 <= lon < 2 * PI -> In c PressureFixtures.source_longitudes ->
     - PI < PressureFixtures.wrap_half_open (lon - c) <= PI) /\
  PressureFixtures.generate_pressure lats lons noise
  = map (fun p => PressureFixtures.np_clip
                    (PressureFixtures.spec_pressure (fst (fst p)) (snd (fst p))
                     + snd p) 97600 104800)
      (combine (combine lats lons) noise) /\
  length (PressureFixtures.generate_pressure lats lons noise) = length lats /\
  Forall (fun p => 97600 <= p <= 104800)
    (PressureFixtures.generate_pressure lats lons noise).
Proof.
  intros Hlons Hnoise.
  split; [exact base_plus_anomalies_spec|].
  split.
  { intros lon c Hlon Hc. apply wrap_half_open_range.
    pose proof (source_longitude_range Hc). pose proof PI_RGT_0. Lra.lra. }
  split.
  { unfold PressureFixtures.generate_pressure. apply map_ext.
    intros p. now rewrite base_plus_anomalies_spec. }
  split.
  { unfold PressureFixtures.generate_pressure.
    rewrite length_map, !length_combine, Hlons, Hnoise.
    rewrite !Nat.min_id. reflexivity. }
  unfold PressureFixtures.generate_pressure. apply Forall_forall.
  intros x Hx. apply in_map_iff in Hx. destruct Hx as [p [<- _]].
  apply np_clip_range. Lra.lra.
Qed.

Lemma pressure_is_clamped_sum_of_four_anomalies_witness :
  Forall (fun p => 97600 <= p <= 104800)
    (PressureFixtures.generate_pressure [0] [0] [0]).
Proof.
  exact (proj2 (proj2 (proj2 (proj2
    (@pressure_is_clamped_sum_of_four_anomalies [0] [0] [0]
       eq_refl eq_refl))))).
Defined.

End Pressure.

(** * Further properties of the code *)

(** ** The layout of the grid *)

Lemma block_of_index (n : nat) (idx : Z) :
  Z.of_nat n <= TempToPng.NUM_RINGS ->
  0 <= idx < sum_Z (map pointCount (range (Z.of_nat n))) ->
  exists ring, 0 <= ring < Z.of_nat n /\
    sum_Z (map pointCount (range ring)) <= idx
    < sum_Z (map pointCount (range ring)) + pointCount ring.
Proof.
  induction n as [|n IH]; intros Hn Hidx.
  - change (range (Z.of_nat 0)) with (@nil Z) in Hidx. simpl in Hidx. lia.
  - replace (Z.of_nat (S n)) with (Z.of_nat n + 1) in * by lia.
    rewrite sum_counts_succ in Hidx by lia.
    destruct (Z_lt_le_dec idx (sum_Z (map pointCount (range (Z.of_nat n)))))
      as [Hlt|Hge].
    + destruct (IH ltac:(lia) ltac:(lia)) as [ring [Hr Hb]].
      exists ring. split; [lia|exact Hb].
    + exists (Z.of_nat n). split; [lia|lia].
Qed.

Lemma blocks_disjoint (r1 r2 k1 k2 : Z) :
  0 <= r1 < r2 -> r2 < TempToPng.NUM_RINGS ->
  0 <= k1 < pointCount r1 -> 0 <= k2 ->
  sum_Z (map pointCount (range r1)) + k1
  < sum_Z (map pointCount (range r2)) + k2.
Proof.
  intros Hr Hr2 Hk1 Hk2.
  assert (H : sum_Z (map pointCount (range (r1 + 1)))
              <= sum_Z (map pointCount (range r2)))
    by (apply sum_counts_mono; lia).
  rewrite sum_counts_succ in H by lia. lia.
Qed.

(** X1.  The blocks of the rings tile the value array: each ring's block
    starts where the previous one ends, every index below [totalPoints]
    belongs to the block of some ring, and two different (ring, point) pairs
    never share a flat index. *)
Theorem ring_blocks_tile_the_array :
  (forall i off, 0 <= i < TempToPng.NUM_RINGS - 1 ->
     getitem TempToPng.generate_ring_offsets i = Ok off ->
     getitem TempToPng.generate_ring_offsets (i + 1)
     = Ok (off + TempToPng.ring_points i)) /\
  (forall idx, 0 <= idx < totalPoints ->
     exists ring k, 0 <= ring < TempToPng.NUM_RINGS /\
       0 <= k < TempToPng.ring_points ring /\
       getitem TempToPng.generate_ring_offsets ring = Ok (idx - k)) /\
  (forall r1 r2 k1 k2 off1 off2,
     0 <= r1 < TempToPng.NUM_RINGS -> 0 <= r2 < TempToPng.NUM_RINGS ->
     0 <= k1 < TempToPng.ring_points r1 ->
     0 <= k2 < TempToPng.ring_points r2 ->
     getitem TempToPng.generate_ring_offsets r1 = Ok off1 ->
     getitem TempToPng.generate_ring_offsets r2 = Ok off2 ->
     off1 + k1 = off2 + k2 -> r1 = r2 /\ k1 = k2).
Proof.
  assert (HN : TempToPng.NUM_RINGS = 2560) by reflexivity.
  split; [|split].
  - intros i off Hi Hoff. rewrite ring_offset_at in Hoff by lia.
    injection Hoff as <-. rewrite ring_offset_at by lia.
    rewrite sum_counts_succ by lia. reflexivity.
  - intros idx Hidx.
    destruct (@block_of_index (Z.to_nat TempToPng.NUM_RINGS) idx)
      as [ring [Hr Hb]].
    + lia.
    + rewrite Z2Nat.id by lia. rewrite ring_counts_total. exact Hidx.
    + rewrite Z2Nat.id in Hr by lia.
      exists ring, (idx - sum_Z (map pointCount (range ring))).
      split; [exact Hr|]. rewrite pointCount_ring_points. split; [lia|].
      rewrite ring_offset_at by exact Hr. f_equal. lia.
  - intros r1 r2 k1 k2 off1 off2 Hr1 Hr2 Hk1 Hk2 Hoff1 Hoff2 E.
    rewrite ring_offset_at in Hoff1, Hoff2 by assumption.
    injection Hoff1 as <-. injection Hoff2 as <-.
    rewrite pointCount_ring_points in Hk1, Hk2.
    destruct (Z.lt_trichotomy r1 r2) as [Hlt|[Heq|Hgt]].
    + pose proof (@blocks_disjoint r1 r2 k1 k2 ltac:(lia) ltac:(lia) Hk1
                    ltac:(lia)). lia.
    + subst r2. split; [reflexivity|lia].
    + pose proof (@blocks_disjoint r2 r1 k2 k1 ltac:(lia) ltac:(lia) Hk2
                    ltac:(lia)). lia.
Qed.

Lemma ring_blocks_tile_the_array_witness :
  exists ring k, 0 <= ring < TempToPng.NUM_RINGS /\
    0 <= k < TempToPng.ring_points ring /\
    getitem TempToPng.generate_ring_offsets ring = Ok (25 - k).
Proof.
  assert (H : 0 <= 25 < totalPoints) by (split; [discriminate|reflexivity]).
  exact (proj1 (proj2 ring_blocks_tile_the_array) 25 H).
Defined.

(** X2.  The grid is symmetric about the equator: ring [NUM_RINGS - 1 - i]
    has as many points as ring [i] and, in exact arithmetic, the opposite
    latitude; the counts range from 20 at the poles to 5136 at the equator,
    and every latitude lies strictly between -pi/2 and pi/2. *)
Theorem grid_is_symmetric_about_the_equator (i : Z) :
  0 <= i < TempToPng.NUM_RINGS ->
  TempToPng.ring_points (TempToPng.NUM_RINGS - 1 - i) = TempToPng.ring_points i /\
  20 <= TempToPng.ring_points i <= 5136 /\
  TempToPng.ring_points 0 = 20 /\
  TempToPng.ring_points (TempToPng.N - 1) = 5136 /\
  TempToPng.ring_points TempToPng.N = 5136 /\
  (nth (Z.to_nat (TempToPng.NUM_RINGS - 1 - i))
     TempToPng.generate_gaussian_lats 0
   == - nth (Z.to_nat i) TempToPng.generate_gaussian_lats 0)%Q /\
  (- (Exact.pi / 2) < nth (Z.to_nat i) TempToPng.generate_gaussian_lats 0
   < Exact.pi / 2)%Q.
Proof.
  intros Hi. assert (HN : TempToPng.NUM_RINGS = 2560) by reflexivity.
  split.
  { unfold TempToPng.ring_points, TempToPng.NUM_RINGS, TempToPng.N in *.
    destruct (Z.ltb_spec (2 * 1280 - 1 - i) 1280);
      destruct (Z.ltb_spec i 1280); lia. }
  split; [rewrite pointCount_ring_points; now apply pointCount_pos|].
  split; [reflexivity|]. split; [reflexivity|]. split; [reflexivity|].
  rewrite !exact_lats_nth by lia. rewrite !exact_ring_latitude.
  assert (Hp : (0 < Exact.pi / 180)%Q) by reflexivity.
  assert (Hhalf : (Exact.pi / 2 == 90 * (Exact.pi / 180))%Q) by field.
  rewrite Hhalf.
  assert (Hi0 : (0 <= inject_Z i)%Q)
    by (change 0%Q with (inject_Z 0); rewrite <- Zle_Qle; lia).
  assert (Hi1 : (inject_Z i <= 2559)%Q)
    by (change 2559%Q with (inject_Z 2559); rewrite <- Zle_Qle; lia).
  assert (Hinj : (inject_Z (TempToPng.NUM_RINGS - 1 - i)
                  == 2559 - inject_Z i)%Q).
  { replace (TempToPng.NUM_RINGS - 1 - i) with (2559 + - i) by lia.
    rewrite inject_Z_plus, inject_Z_opp. change (inject_Z 2559) with 2559%Q.
    ring. }
  rewrite Hinj.
  set (p := (Exact.pi / 180)%Q) in *. clearbody p.
  split; [ring|].
  split.
  - apply Qlt_minus_iff.
    setoid_replace ((90 - (inject_Z i + (1 # 2)) * (9 # 128)) * p
                    + - - (90 * p))%Q
      with ((180 - (inject_Z i + (1 # 2)) * (9 # 128)) * p)%Q by ring.
    apply Qmult_lt_0_compat; [lra|exact Hp].
  - apply Qlt_minus_iff.
    setoid_replace (90 * p + - ((90 - (inject_Z i + (1 # 2)) * (9 # 128)) * p))%Q
      with (((inject_Z i + (1 # 2)) * (9 # 128)) * p)%Q by ring.
    apply Qmult_lt_0_compat; [lra|exact Hp].
Qed.

Lemma grid_is_symmetric_about_the_equator_witness :
  TempToPng.ring_points (TempToPng.NUM_RINGS - 1 - 7) = TempToPng.ring_points 7.
Proof.
  assert (H : 0 <= 7 < TempToPng.NUM_RINGS) by (split; [discriminate|reflexivity]).
  exact (proj1 (@grid_is_symmetric_about_the_equator 7 H)).
Defined.

Lemma exact_find_ring_antitone_aux (lat1 lat2 : Q) (r1 r2 : Z) :
  (lat1 <= lat2)%Q ->
  0 <= r1 <= TempToPng.NUM_RINGS -> 0 <= r2 <= TempToPng.NUM_RINGS ->
  (forall i, r1 <= i < TempToPng.NUM_RINGS -> (ring_latitude i <= lat1)%Q) ->
  (forall i, 0 <= i < r2 -> (lat2 < ring_latitude i)%Q) ->
  r2 <= r1.
Proof.
  intros Hle Hr1 Hr2 Ha1 Hb2.
  destruct (Z_le_gt_dec r2 r1) as [H|H]; [exact H|].
  exfalso.
  assert (H1 : r1 <= r1 < TempToPng.NUM_RINGS) by lia.
  assert (H2 : 0 <= r1 < r2) by lia.
  specialize (Ha1 r1 H1). specialize (Hb2 r1 H2). lra.
Qed.

(** X3.  In exact arithmetic the ring index never grows with the latitude:
    a query further north is located on the same ring or on one nearer the
    north pole. *)
Theorem find_ring_antitone (lat1 lat2 : Q) :
  (lat1 <= lat2)%Q ->
  TempToPng.find_ring lat2 TempToPng.generate_gaussian_lats
  <= TempToPng.find_ring lat1 TempToPng.generate_gaussian_lats /\
  TempToPng.clamped_ring lat2 TempToPng.generate_gaussian_lats
  <= TempToPng.clamped_ring lat1 TempToPng.generate_gaussian_lats.
Proof.
  intros Hle.
  pose proof (exact_find_ring lat1) as H1. pose proof (exact_find_ring lat2) as H2.
  cbv zeta in H1, H2. destruct H1 as [Hr1 [_ Ha1]]. destruct H2 as [Hr2 [Hb2 _]].
  pose proof (exact_find_ring_antitone_aux Hle Hr1 Hr2 Ha1 Hb2) as H.
  split; [exact H|].
  unfold TempToPng.clamped_ring.
  exact (Z.min_le_compat_r _ _ _ H).
Qed.

Lemma find_ring_antitone_witness :
  TempToPng.find_ring (1 # 2)%Q TempToPng.generate_gaussian_lats
  <= TempToPng.find_ring 0%Q TempToPng.generate_gaussian_lats.
Proof.
  assert (H : (0 <= 1 # 2)%Q) by discriminate.
  exact (proj1 (@find_ring_antitone 0%Q (1 # 2)%Q H)).
Defined.

Lemma exact_split_point (lat : Q) (t r : Z) :
  0 <= t < TempToPng.NUM_RINGS ->
  (ring_latitude t <= lat)%Q ->
  (0 < t -> (lat < ring_latitude (t - 1))%Q) ->
  0 <= r <= TempToPng.NUM_RINGS ->
  (forall i, 0 <= i < r -> (lat < ring_latitude i)%Q) ->
  (forall i, r <= i < TempToPng.NUM_RINGS -> (ring_latitude i <= lat)%Q) ->
  Z.min r (TempToPng.NUM_RINGS - 1) = t.
Proof.
  intros Ht Hle Hlt Hr Hb Ha.
  assert (E : r = t).
  { destruct (Z.lt_trichotomy r t) as [H|[H|H]]; [|exact H|].
    - exfalso. assert (H1 : r <= t - 1 < TempToPng.NUM_RINGS) by lia.
      specialize (Ha _ H1). specialize (Hlt ltac:(lia)). lra.
    - exfalso. assert (H1 : 0 <= t < r) by lia.
      specialize (Hb _ H1). lra. }
  subst r. lia.
Qed.

Lemma exact_pixel_lat (y : Z) :
  (TempToPng.pixel_lat TempToPng.HEIGHT y
   == (90 - inject_Z y * (45 # 128)) * (Exact.pi / 180))%Q.
Proof.
  unfold TempToPng.pixel_lat. cbn [fmul fsub fdiv lit of_Z np_pi Exact.num].
  change (inject_Z TempToPng.HEIGHT) with 512%Q. field.
Qed.

Lemma exact_raster_row (y : Z) :
  0 <= y < TempToPng.HEIGHT ->
  TempToPng.clamped_ring (F := Q) (TempToPng.pixel_lat TempToPng.HEIGHT y)
    TempToPng.generate_gaussian_lats = 5 * y.
Proof.
  intros Hy. assert (HH : TempToPng.HEIGHT = 512) by reflexivity.
  assert (HN : TempToPng.NUM_RINGS = 2560) by reflexivity.
  pose proof (exact_find_ring (TempToPng.pixel_lat TempToPng.HEIGHT y)) as H.
  cbv zeta in H. destruct H as [Hr [Hb Ha]].
  unfold TempToPng.clamped_ring.
  assert (Hp : (0 < Exact.pi / 180)%Q) by reflexivity.
  assert (Hy0 : (0 <= inject_Z y)%Q)
    by (change 0%Q with (inject_Z 0); rewrite <- Zle_Qle; lia).
  refine (@exact_split_point _ (5 * y) _ _ _ _ Hr Hb Ha); [lia| |].
  - rewrite exact_ring_latitude, exact_pixel_lat, inject_Z_mult.
    change (inject_Z 5) with 5%Q.
    set (p := (Exact.pi / 180)%Q) in *. clearbody p.
    apply Qmult_le_compat_r; [lra|lra].
  - intros Hpos. rewrite exact_ring_latitude, exact_pixel_lat.
    unfold Zminus. rewrite inject_Z_plus, inject_Z_mult.
    change (inject_Z 5) with 5%Q. change (inject_Z (- (1))) with (-1 # 1)%Q.
    set (p := (Exact.pi / 180)%Q) in *. clearbody p.
    apply Qmult_lt_compat_r; [exact Hp|lra].
Qed.

(** X4.  In exact arithmetic pixel row [y] of the 512-row raster samples
    ring [5 * y]: the renderer reads every fifth ring and none of the last
    four. *)
Theorem raster_row_samples_every_fifth_ring (y : Z) :
  0 <= y < TempToPng.HEIGHT ->
  TempToPng.clamped_ring (F := Q) (TempToPng.pixel_lat TempToPng.HEIGHT y)
    TempToPng.generate_gaussian_lats = 5 * y.
Proof. exact (@exact_raster_row y). Qed.


Lemma raster_row_samples_every_fifth_ring_witness :
  TempToPng.clamped_ring (F := Q) (TempToPng.pixel_lat TempToPng.HEIGHT 511)
    TempToPng.generate_gaussian_lats = 5 * 511.
Proof.
  assert (H : 0 <= 511 < TempToPng.HEIGHT) by (split; [discriminate|reflexivity]).
  exact (@raster_row_samples_every_fifth_ring 511 H).
Defined.

(** ** The renderers *)

Lemma trunc_range (x : Q) (m : Z) :
  (0 <= x)%Q -> (x <= inject_Z m)%Q -> 0 <= Exact.trunc x <= m.
Proof.
  intros H0 Hm. rewrite trunc_nonneg by exact H0. split.
  - change 0 with (Qfloor (inject_Z 0)). apply Qfloor_resp_le. exact H0.
  - rewrite <- (Qfloor_Z m). apply Qfloor_resp_le. exact Hm.
Qed.

Lemma trunc_monotone_nonneg (x y : Q) :
  (0 <= x)%Q -> (x <= y)%Q -> Exact.trunc x <= Exact.trunc y.
Proof.
  intros H0 Hxy. rewrite !trunc_nonneg by lra. now apply Qfloor_resp_le.
Qed.

Lemma trunc_integer (x : Q) (z : Z) :
  0 <= z -> (x == inject_Z z)%Q -> Exact.trunc x = z.
Proof.
  intros Hz E. rewrite trunc_nonneg.
  - rewrite E. apply Qfloor_Z.
  - rewrite E. change 0%Q with (inject_Z 0). now rewrite <- Zle_Qle.
Qed.

Lemma temp_to_rgb_ramp {F : Type} {num : PyFloat F} (temp_c : F) :
  TempToPngHue.temp_to_rgb temp_c = ramp (TempToPngHue.temp_fraction temp_c).
Proof. reflexivity. Qed.

Lemma exact_temp_fraction (temp_c : Q) :
  ((temp_c <= -50)%Q /\ TempToPngHue.temp_fraction temp_c = 0%Q) \/
  ((50 <= temp_c)%Q /\ TempToPngHue.temp_fraction temp_c = 1%Q) \/
  ((-50 < temp_c < 50)%Q /\ (0 < TempToPngHue.temp_fraction temp_c < 1)%Q).
Proof.
  unfold TempToPngHue.temp_fraction, TempToPngHue.py_max, TempToPngHue.py_min.
  cbn [fdiv fadd of_Z f32 Exact.num].
  change (inject_Z 0) with 0%Q. change (inject_Z 1) with 1%Q.
  change (inject_Z 50) with 50%Q. change (inject_Z 100) with 100%Q.
  assert (Hx : ((temp_c + 50) / 100 == (temp_c + 50) * (1 # 100))%Q) by field.
  destruct (fltb ((temp_c + 50) / 100)%Q 1%Q) eqn:E1.
  - apply exact_fltb in E1.
    destruct (fltb 0%Q ((temp_c + 50) / 100)%Q) eqn:E2.
    + apply exact_fltb in E2. right. right.
      split; [rewrite Hx in E1, E2; lra|split; assumption].
    + apply exact_fltb_false in E2. left. split; [|reflexivity].
      rewrite Hx in E2. lra.
  - apply exact_fltb_false in E1. right. left.
    change (fltb 0%Q 1%Q) with true. split; [|reflexivity].
    rewrite Hx in E1. lra.
Qed.

Lemma exact_ramp_colours (t : Q) :
  (0 <= t <= 1)%Q ->
  exists r g b, ramp t = Ok (r, g, b) /\
    0 <= r <= 255 /\ 0 <= g <= 255 /\ 0 <= b <= 255 /\
    (r = 0 \/ b = 0) /\ (r = 255 \/ g = 255 \/ b = 255).
Proof.
  intros Ht. unfold ramp.
  destruct (fltb t (lit 0.25)) eqn:E1;
    [|destruct (fltb t (lit 0.5)) eqn:E2;
      [|destruct (fltb t (lit 0.75)) eqn:E3]];
    cbn [py_int bind Exact.num fmul fsub of_Z lit f32];
    change (inject_Z 0) with 0%Q; change (inject_Z 1) with 1%Q;
    change (inject_Z 4) with 4%Q; change (inject_Z 255) with 255%Q.
  - apply exact_fltb in E1. cbn [lit Exact.num] in E1.
    eexists. eexists. eexists. split; [reflexivity|].
    split; [split; discriminate|].
    split; [apply trunc_range; change (inject_Z 255) with 255%Q; lra|].
    split; [split; discriminate|].
    split; [left; reflexivity|right; right; reflexivity].
  - apply exact_fltb_false in E1. apply exact_fltb in E2.
    cbn [lit Exact.num] in E1, E2.
    eexists. eexists. eexists. split; [reflexivity|].
    split; [split; discriminate|].
    split; [split; discriminate|].
    split; [apply trunc_range; change (inject_Z 255) with 255%Q; lra|].
    split; [left; reflexivity|right; left; reflexivity].
  - apply exact_fltb_false in E2. apply exact_fltb in E3.
    cbn [lit Exact.num] in E2, E3.
    eexists. eexists. eexists. split; [reflexivity|].
    split; [apply trunc_range; change (inject_Z 255) with 255%Q; lra|].
    split; [split; discriminate|].
    split; [split; discriminate|].
    split; [right; reflexivity|right; left; reflexivity].
  - apply exact_fltb_false in E3. cbn [lit Exact.num] in E3.
    eexists. eexists. eexists. split; [reflexivity|].
    split; [split; discriminate|].
    split; [apply trunc_range; change (inject_Z 255) with 255%Q; lra|].
    split; [split; discriminate|].
    split; [right; reflexivity|left; reflexivity].
Qed.

(** X5.  In exact arithmetic [temp_to_rgb] never raises and every colour is
    on the saturated rim of the ramp: each channel is in [0, 255], red or
    blue is 0, and one channel is 255; temperatures at or below -50 give
    pure blue and temperatures at or above 50 give pure red. *)
Theorem temp_to_rgb_saturated_ramp (temp_c : Q) :
  exists r g b, TempToPngHue.temp_to_rgb temp_c = Ok (r, g, b) /\
    0 <= r <= 255 /\ 0 <= g <= 255 /\ 0 <= b <= 255 /\
    (r = 0 \/ b = 0) /\ (r = 255 \/ g = 255 \/ b = 255) /\
    ((temp_c <= -50)%Q -> (r, g, b) = (0, 0, 255)) /\
    ((50 <= temp_c)%Q -> (r, g, b) = (255, 0, 0)).
Proof.
  rewrite temp_to_rgb_ramp.
  destruct (exact_temp_fraction temp_c) as [[Hc Ht]|[[Hc Ht]|Ht]].
  - rewrite Ht. exists 0, 0, 255. split; [reflexivity|].
    do 3 (split; [lia|]). split; [left; reflexivity|].
    split; [right; right; reflexivity|].
    split; [reflexivity|]. intros H. exfalso. lra.
  - rewrite Ht. exists 255, 0, 0. split; [reflexivity|].
    do 3 (split; [lia|]). split; [right; reflexivity|].
    split; [left; reflexivity|].
    split; [|reflexivity]. intros H. exfalso. lra.
  - destruct Ht as [Hc Ht].
    destruct (@exact_ramp_colours (TempToPngHue.temp_fraction temp_c))
      as (r & g & b & Hr & H1 & H2 & H3 & H4 & H5); [lra|].
    exists r, g, b. split; [exact Hr|].
    split; [exact H1|]. split; [exact H2|]. split; [exact H3|].
    split; [exact H4|]. split; [exact H5|].
    split; intros H; exfalso; lra.
Qed.

(** ** Empty and uniform inputs *)

(** X7.  An empty input file: the grayscale [main] raises [ValueError] at
    the raw-range line before it renders anything (in every model of the
    scalars), while the hue renderer, whose sampler answers 0 for every
    missing point, produces the colour of 0 degrees, green, at every
    pixel. *)
Theorem empty_input_file :
  (forall (F : Type) (num : PyFloat F) (width height : Z),
     TempToPng.render (F := F) width height [] = Raise ValueError) /\
  (forall width height : Z,
     TempToPngHue.render_hue (F := Q) width height []
     = Ok (repeat (repeat (0, 255, 0) (Z.to_nat width)) (Z.to_nat height))).
Proof.
  split; [intros F num width height; reflexivity|].
  intros width height. unfold TempToPngHue.render_hue. cbv zeta.
  rewrite <- (map_const_range (repeat (0, 255, 0) (Z.to_nat width)) height).
  apply mapM_ok. intros y _.
  rewrite <- (map_const_range (0, 255, 0) width).
  apply mapM_ok. intros x Hx. apply in_range in Hx.
  rewrite get_temp_is_get_value, (exact_get_value_empty _ _ Hx). reflexivity.
Qed.

Lemma generate_uniform_length {F : Type} {num : PyFloat F} (value : F) :
  len (TestBins.generate_uniform value) = totalPoints.
Proof.
  unfold len, TestBins.generate_uniform. rewrite repeat_length.
  apply Z2Nat.id. discriminate.
Qed.

Lemma binary64_fixture_colours :
  TempToPngHue.temp_to_rgb (F := float) (f32 (lit 55)) = Ok (255, 0, 0) /\
  TempToPngHue.temp_to_rgb (F := float) (f32 (fneg (lit 20)))
  = Ok (0, 255, 203).
Proof. split; vm_compute; reflexivity. Qed.

(** X8.  In every model of the scalars the array written by
    [generate_uniform] has exactly as many values as the grid has points,
    all equal to the value rounded to float32, so whenever the sampler
    returns on it, it returns that value and never the zero of its last
    line.  For the two fixtures that [main] writes, 55.0 and -20.0, the hue
    colour map computes, in float32, the colours (255, 0, 0) and
    (0, 255, 203). *)
Theorem uniform_fixtures_sample_to_their_value :
  (forall (F : Type) (num : PyFloat F) (value : F),
     len (TestBins.generate_uniform value)
     = sum_Z (map TempToPng.ring_points (range TempToPng.NUM_RINGS)) /\
     Forall (eq (f32 value)) (TestBins.generate_uniform value) /\
     forall (lat lon : F) (lats : list F) (v : F),
       TempToPngHue.get_temp lat lon (TestBins.generate_uniform value) lats
         TempToPng.generate_ring_offsets = Ok v ->
       v = f32 value) /\
  map (fun fixture : String.string * list float =>
         TempToPngHue.temp_to_rgb (nth 0 (snd fixture) (of_Z 0)))
    TestBins.main_fixtures
  = [Ok (255, 0, 0); Ok (0, 255, 203)].
Proof.
  split.
  - intros F num value.
    split; [rewrite generate_uniform_length; symmetry; exact ring_counts_total|].
    split.
    { apply Forall_forall. intros x Hx. symmetry.
      exact (repeat_spec _ _ _ Hx). }
    intros lat lon lats v Hv. rewrite get_temp_is_get_value in Hv.
    destruct (TempToPng.lon_index lon
                (pointCount (TempToPng.clamped_ring lat lats))
                (TempToPng.ring_is_int64 (TempToPng.find_ring lat lats)))
      as [k|e] eqn:E.
    + destruct (@get_value_complete F num lat lon
                  (TestBins.generate_uniform value) lats k
                  (generate_uniform_length value) E)
        as [off [_ [_ [Hidx [_ Hget]]]]].
      rewrite Hget in Hv. apply ok_injective in Hv. rewrite <- Hv.
      unfold TestBins.generate_uniform. apply nth_repeat_lt.
      change TestBins.O1280_POINTS with totalPoints. lia.
    + rewrite (@get_value_lon_raise F num lat lon _ lats e E) in Hv.
      discriminate Hv.
  - unfold TestBins.main_fixtures. cbn [map snd].
    unfold TestBins.generate_uniform.
    assert (Hpos : (0 < Z.to_nat TestBins.O1280_POINTS)%nat)
      by (apply Nat2Z.inj_lt; rewrite Z2Nat.id; [reflexivity|discriminate]).
    rewrite !(nth_repeat_lt _ _ Hpos).
    destruct binary64_fixture_colours as [H55 H20].
    now rewrite H55, H20.
Qed.

(** ** The default output name *)

Section OutputName.

Import String.
Local Open Scope string_scope.

Lemma replace_scan_no_occurrence (s : string) :
  index 0 ".bin" s = None -> Cli.replace_scan ".bin" ".png" 0 s = s.
Proof.
  induction s as [|c s IH]; intros H; [reflexivity|].
  cbn [index] in H. cbn [Cli.replace_scan].
  destruct (prefix ".bin" (String c s)) eqn:E; [discriminate|].
  destruct (index 0 ".bin" s) as [k|] eqn:Ek; [discriminate|].
  now rewrite IH.
Qed.

Lemma prefix_bin_length (c : Ascii.ascii) (s : string) :
  prefix ".bin" (String c s) = true -> (3 <= String.length s)%nat.
Proof.
  destruct s as [|c1 [|c2 [|c3 s]]]; cbn [prefix];
    repeat match goal with
           | |- context [Ascii.ascii_dec ?a ?b] =>
               destruct (Ascii.ascii_dec a b)
           end;
    try discriminate; intros _; cbn [String.length]; lia.
Qed.

Lemma string_length_append (a b : string) :
  String.length (a ++ b) = (String.length a + String.length b)%nat.
Proof.
  induction a as [|c a IH]; [reflexivity|].
  cbn [append String.length]. now rewrite IH.
Qed.

Lemma replace_scan_length (s : string) : forall k,
  (k <= String.length s)%nat ->
  String.length (Cli.replace_scan ".bin" ".png" k s)
  = (String.length s - k)%nat.
Proof.
  induction s as [|c s IH]; intros k Hk; [reflexivity|].
  cbn [Cli.replace_scan]. cbn [String.length] in Hk.
  destruct k as [|k].
  - destruct (prefix ".bin" (String c s)) eqn:E.
    + pose proof (prefix_bin_length c s E) as H3.
      change (String.length ".bin" - 1)%nat with 3%nat.
      rewrite string_length_append, IH by exact H3.
      change (String.length ".png") with 4%nat.
      cbn [String.length]. lia.
    + cbn [String.length]. rewrite IH by lia. lia.
  - rewrite IH by lia. cbn [String.length]. lia.
Qed.

(** X9.  The default output name has the length of the input name, and
    when the input name contains no [.bin] at all the default output name
    is the input name itself. *)
Theorem default_output_name_without_bin :
  (forall s, String.length (Cli.str_replace ".bin" ".png" s) = String.length s) /\
  (forall usage prog input_file,
     index 0 ".bin" input_file = None ->
     Cli.main_args usage [prog; input_file]
     = Ok (Cli.Files input_file input_file)).
Proof.
  split.
  - intros s. unfold Cli.str_replace.
    rewrite replace_scan_length by lia. lia.
  - intros usage prog input_file H.
    change (Cli.main_args usage [prog; input_file])
      with (Ok (Cli.Files input_file (Cli.replace_scan ".bin" ".png" 0 input_file))).
    now rewrite replace_scan_no_occurrence.
Qed.

Lemma default_output_name_without_bin_witness :
  Cli.main_args Cli.usage_scripts ["temp-to-png.py"; "t2m.dat"]
  = Ok (Cli.Files "t2m.dat" "t2m.dat").
Proof.
  exact (proj2 default_output_name_without_bin Cli.usage_scripts
           "temp-to-png.py" "t2m.dat" eq_refl).
Defined.

End OutputName.

(** ** The fixture grid *)

Section FixtureGridFacts.

Import RealNum.
Local Open Scope R_scope.

Lemma split_fst_map {A B : Type} (l : list (A * B)) :
  fst (List.split l) = map fst l.
Proof.
  induction l as [|[a b] l IH]; [reflexivity|].
  simpl. destruct (List.split l). simpl in *. now rewrite IH.
Qed.

Lemma split_snd_map {A B : Type} (l : list (A * B)) :
  snd (List.split l) = map snd l.
Proof.
  induction l as [|[a b] l IH]; [reflexivity|].
  simpl. destruct (List.split l). simpl in *. now rewrite IH.
Qed.

Lemma grid_ring_length (ring : Z) :
  length (FixtureGrid.grid_ring ring) = Z.to_nat (pointCount ring).
Proof.
  unfold FixtureGrid.grid_ring. cbv zeta. rewrite length_map.
  unfold range. apply range_from_length.
Qed.

Lemma grid_points_count (l : list Z) :
  Forall (fun r => (0 <= pointCount r)%Z) l ->
  Z.of_nat (length (flat_map FixtureGrid.grid_ring l))
  = sum_Z (map pointCount l).
Proof.
  induction 1 as [|r l Hr Hl IH]; [reflexivity|].
  cbn [flat_map map sum_Z fold_right]. rewrite length_app, grid_ring_length.
  rewrite Nat2Z.inj_add, IH, Z2Nat.id by exact Hr. reflexivity.
Qed.

(** X10.  [generate_gaussian_grid] fills its two arrays completely: it
    produces exactly [O1280_POINTS] latitudes and as many longitudes, the
    number for which the arrays were allocated. *)
Theorem gaussian_grid_fills_the_arrays :
  len (fst FixtureGrid.generate_gaussian_grid) = FixtureGrid.O1280_POINTS /\
  len (snd FixtureGrid.generate_gaussian_grid) = FixtureGrid.O1280_POINTS.
Proof.
  assert (H : Z.of_nat (length (flat_map FixtureGrid.grid_ring
                                  (range FixtureGrid.NUM_RINGS)))
              = FixtureGrid.O1280_POINTS).
  { rewrite grid_points_count.
    - exact ring_counts_total.
    - apply Forall_forall. intros r Hr. apply in_range in Hr.
      pose proof (@pointCount_pos r Hr). lia. }
  unfold FixtureGrid.generate_gaussian_grid, len.
  rewrite length_fst_split, length_snd_split. split; exact H.
Qed.

Lemma grid_point_in_range (lat lon : R) :
  In (lat, lon) (flat_map FixtureGrid.grid_ring (range FixtureGrid.NUM_RINGS)) ->
  - (PI / 2) < lat < PI / 2 /\ 0 <= lon < 2 * PI.
Proof.
  intros H. apply in_flat_map in H. destruct H as [ring [Hring H]].
  apply in_range in Hring.
  unfold FixtureGrid.grid_ring in H. cbv zeta in H.
  apply in_map_iff in H. destruct H as [i [E Hi]]. apply in_range in Hi.
  injection E as <- <-.
  change (4 * (if ring <? FixtureGrid.N then ring + 1
               else FixtureGrid.NUM_RINGS - ring) + 16)%Z
    with (pointCount ring) in Hi |- *.
  pose proof (@pointCount_pos ring Hring) as Hn.
  pose proof PI_RGT_0 as Hpi.
  assert (Hr0 : 0 <= IZR ring) by (apply IZR_le; lia).
  assert (Hr1 : IZR ring <= 2559)
    by (apply IZR_le; unfold FixtureGrid.NUM_RINGS, FixtureGrid.N in Hring; lia).
  split.
  - unfold np_radians. change (IZR FixtureGrid.NUM_RINGS) with 2560.
    split.
    + apply Rlt_le_trans
        with ((90 - (2559 + 0.5) * 180 / 2560) * (PI / 180)); [Lra.lra|].
      apply Rmult_le_compat_r; Lra.lra.
    + apply Rle_lt_trans
        with ((90 - (0 + 0.5) * 180 / 2560) * (PI / 180)); [|Lra.lra].
      apply Rmult_le_compat_r; Lra.lra.
  - assert (Hi0 : 0 <= IZR i) by (apply IZR_le; lia).
    assert (Hin : IZR i < IZR (pointCount ring)) by (apply IZR_lt; lia).
    assert (Hn0 : 0 < IZR (pointCount ring)) by (apply IZR_lt; lia).
    split.
    + apply Rmult_le_pos; [|apply Rlt_le, Rinv_0_lt_compat, Hn0].
      apply Rmult_le_pos; Lra.lra.
    + apply (Rmult_lt_reg_r (IZR (pointCount ring))); [exact Hn0|].
      unfold Rdiv. rewrite Rmult_assoc, Rinv_l by Lra.lra.
      rewrite Rmult_1_r. apply Rmult_lt_compat_l; Lra.lra.
Qed.

(** X11.  Every point of the fixture grid has its latitude strictly between
    -PI/2 and PI/2 and its longitude in [0, 2 PI). *)
Theorem gaussian_grid_coordinates_in_range :
  Forall (fun lat => - (PI / 2) < lat < PI / 2)
    (fst FixtureGrid.generate_gaussian_grid) /\
  Forall (fun lon => 0 <= lon < 2 * PI)
    (snd FixtureGrid.generate_gaussian_grid).
Proof.
  unfold FixtureGrid.generate_gaussian_grid.
  rewrite split_fst_map, split_snd_map. split.
  - apply Forall_forall. intros lat H. apply in_map_iff in H.
    destruct H as [[lat' lon] [<- H]]. exact (proj1 (grid_point_in_range H)).
  - apply Forall_forall. intros lon H. apply in_map_iff in H.
    destruct H as [[lat lon'] [<- H]]. exact (proj2 (grid_point_in_range H)).
Qed.

End FixtureGridFacts.

(** ** The wind and pressure fields away from the special points *)

Section FixtureFields.

Import RealNum.
Local Open Scope R_scope.

Lemma wind_speed_cases (dist max_wind core_radius outer_radius : R) :
  0 <= dist ->
  (dist < core_radius /\
   WindFixtures.wind_speed dist max_wind core_radius outer_radius
   = Some (max_wind * (dist / core_radius))) \/
  (core_radius <= dist < outer_radius /\
   WindFixtures.wind_speed dist max_wind core_radius outer_radius
   = Some (max_wind
           * (1 - (dist - core_radius) / (outer_radius - core_radius)))) \/
  (core_radius <= dist /\ outer_radius <= dist /\
   WindFixtures.wind_speed dist max_wind core_radius outer_radius = Some 0).
Proof.
  intros Hd.
  destruct (Rlt_dec dist core_radius) as [H1|H1].
  - left. split; [exact H1|]. apply wind_speed_inside. Lra.lra.
  - destruct (Rlt_dec dist outer_radius) as [H2|H2].
    + right. left. split; [Lra.lra|]. apply wind_speed_between. Lra.lra.
    + right. right. split; [Lra.lra|]. split; [Lra.lra|].
      apply wind_speed_outside; Lra.lra.
Qed.

Lemma unit_fraction (a b : R) : 0 <= a < b -> 0 <= a / b < 1.
Proof.
  intros H. assert (Hb : 0 < / b) by (apply Rinv_0_lt_compat; Lra.lra).
  split.
  - apply Rmult_le_pos; Lra.lra.
  - apply (Rmult_lt_reg_r b); [Lra.lra|].
    unfold Rdiv. rewrite Rmult_assoc, Rinv_l by Lra.lra. Lra.lra.
Qed.

(** X15.  For a distance and a maximum wind that are not negative the
    speed profile is defined, whatever the two radii are, and lies between 0
    and [max_wind]; with a positive [max_wind] it reaches [max_wind] only at
    distance [core_radius], and only when [core_radius < outer_radius]. *)
Theorem wind_speed_bounded (dist max_wind core_radius outer_radius : R) :
  0 <= dist -> 0 <= max_wind ->
  exists speed,
    WindFixtures.wind_speed dist max_wind core_radius outer_radius
    = Some speed /\
    0 <= speed <= max_wind /\
    (0 < max_wind ->
     (speed = max_wind <-> dist = core_radius /\ core_radius < outer_radius)).
Proof.
  intros Hd Hm.
  destruct (wind_speed_cases max_wind core_radius outer_radius Hd)
    as [[H1 E]|[[H1 E]|[H1 [H2 E]]]]; rewrite E.
  - pose proof (@unit_fraction dist core_radius ltac:(Lra.lra)) as Hq.
    set (q := dist / core_radius) in *. clearbody q.
    exists (max_wind * q). split; [reflexivity|]. split; [Lra.nra|].
    intros Hpos. split; [intros Heq; Lra.nra|intros [Heq _]; Lra.lra].
  - pose proof (@unit_fraction (dist - core_radius)
                  (outer_radius - core_radius) ltac:(Lra.lra)) as Hq.
    assert (Hq0 : (dist - core_radius) / (outer_radius - core_radius) = 0
                  -> dist = core_radius).
    { intros H0. apply (f_equal (fun z => z * (outer_radius - core_radius))) in H0.
      unfold Rdiv in H0. rewrite Rmult_assoc, Rinv_l in H0 by Lra.lra.
      Lra.lra. }
    assert (Hq1 : dist = core_radius ->
                  (dist - core_radius) / (outer_radius - core_radius) = 0).
    { intros ->. unfold Rdiv. replace (core_radius - core_radius) with 0 by ring.
      ring. }
    set (q := (dist - core_radius) / (outer_radius - core_radius)) in *.
    clearbody q.
    exists (max_wind * (1 - q)). split; [reflexivity|]. split; [Lra.nra|].
    intros Hpos. split.
    + intros Heq. split; [apply Hq0; Lra.nra|Lra.lra].
    + intros [Heq _]. rewrite (Hq1 Heq). ring.
  - exists 0. split; [reflexivity|]. split; [Lra.lra|].
    intros Hpos. split; [intros Heq; Lra.lra|intros [Heq Hlt]; Lra.lra].
Qed.

Lemma wind_speed_bounded_witness :
  exists speed,
    WindFixtures.wind_speed 0.45 25.0 0.1 0.8 = Some speed /\
    0 <= speed <= 25.0.
Proof.
  assert (Hd : 0 <= 0.45) by Lra.lra. assert (Hm : 0 <= 25.0) by Lra.lra.
  destruct (@wind_speed_bounded 0.45 25.0 0.1 0.8 Hd Hm) as [s [E [Hs _]]].
  exists s. split; [exact E|exact Hs].
Defined.

Lemma dist_safe_pos (dist : R) : 0 < Rmax dist 1e-6.
Proof. unfold Rmax. destruct (Rle_dec dist 1e-6); Lra.lra. Qed.

Lemma cyclone_point_eq
  (lat lon center_lat center_lon max_wind core_radius outer_radius speed : R) :
  WindFixtures.wind_speed
    (WindFixtures.center_distance lat lon center_lat center_lon)
    max_wind core_radius outer_radius = Some speed ->
  let dlat := lat - center_lat in
  let dlon_scaled := wrap_dlon (lon - center_lon) * cos lat in
  let dist_safe :=
    Rmax (WindFixtures.center_distance lat lon center_lat center_lon) 1e-6 in
  WindFixtures.cyclone_point lat lon center_lat center_lon
    max_wind core_radius outer_radius
  = Some (speed * (dlat / dist_safe + 0.3 * (- dlon_scaled / dist_safe)),
          speed * (- dlon_scaled / dist_safe + 0.3 * (- dlat / dist_safe))).
Proof.
  intros E. cbv zeta.
  unfold WindFixtures.cyclone_point, WindFixtures.center_distance in *.
  cbv zeta. rewrite E. cbn [obind].
  pose proof (dist_safe_pos
                (sqrt ((lat - center_lat) ^ 2
                       + (wrap_dlon (lon - center_lon) * cos lat) ^ 2))) as Hs.
  rewrite !np_div_finite by Lra.lra. cbn [obind]. reflexivity.
Qed.

Lemma center_distance_square (lat lon center_lat center_lon : R) :
  0 <= WindFixtures.center_distance lat lon center_lat center_lon /\
  WindFixtures.center_distance lat lon center_lat center_lon
  * WindFixtures.center_distance lat lon center_lat center_lon
  = (lat - center_lat) ^ 2 + (wrap_dlon (lon - center_lon) * cos lat) ^ 2.
Proof.
  unfold WindFixtures.center_distance. cbv zeta. split.
  - apply sqrt_pos.
  - apply sqrt_sqrt.
    pose proof (pow2_ge_0 (lat - center_lat)).
    pose proof (pow2_ge_0 (wrap_dlon (lon - center_lon) * cos lat)).
    Lra.lra.
Qed.

(** X16.  [generate_cyclone] divides by zero at no grid point, whatever the
    centre, the maximum wind and the two radii are: both wind components
    are defined, and the wind is never stronger than [sqrt 1.09] times the
    profile's speed. *)
Theorem cyclone_defined_everywhere
  (lat lon center_lat center_lon max_wind core_radius outer_radius : R) :
  exists speed u v,
    WindFixtures.wind_speed
      (WindFixtures.center_distance lat lon center_lat center_lon)
      max_wind core_radius outer_radius = Some speed /\
    WindFixtures.cyclone_point lat lon center_lat center_lon
      max_wind core_radius outer_radius = Some (u, v) /\
    u ^ 2 + v ^ 2 <= 1.09 * speed ^ 2.
Proof.
  destruct (center_distance_square lat lon center_lat center_lon) as [Hd Hsq].
  assert (Hspeed : exists speed,
             WindFixtures.wind_speed
               (WindFixtures.center_distance lat lon center_lat center_lon)
               max_wind core_radius outer_radius = Some speed).
  { destruct (wind_speed_cases max_wind core_radius outer_radius Hd)
      as [[_ E]|[[_ E]|[_ [_ E]]]]; rewrite E; eexists; reflexivity. }
  destruct Hspeed as [speed E].
  pose proof (cyclone_point_eq _ _ _ _ _ _ _ E) as Hp. cbv zeta in Hp.
  pose proof (dist_safe_pos
                (WindFixtures.center_distance lat lon center_lat center_lon))
    as Hs.
  assert (Hle : WindFixtures.center_distance lat lon center_lat center_lon
                <= Rmax (WindFixtures.center_distance lat lon center_lat
                           center_lon) 1e-6)
    by (unfold Rmax; destruct (Rle_dec _ 1e-6); Lra.lra).
  set (d := WindFixtures.center_distance lat lon center_lat center_lon) in *.
  set (ds := Rmax d 1e-6) in *.
  set (dlat := lat - center_lat) in *.
  set (dls := wrap_dlon (lon - center_lon) * cos lat) in *.
  clearbody d ds dlat dls.
  exists speed. eexists. eexists. split; [exact E|]. split; [exact Hp|].
  replace 0.3 with (3 / 10) by Lra.lra.
  replace 1.09 with (109 / 100) by Lra.lra.
  assert (Hinv : 0 < / ds) by (apply Rinv_0_lt_compat; exact Hs).
  assert (Hq : (d * / ds) ^ 2 <= 1).
  { assert (0 <= d * / ds) by (apply Rmult_le_pos; Lra.lra).
    assert (d * / ds <= 1).
    { apply (Rmult_le_reg_r ds); [exact Hs|].
      rewrite Rmult_assoc, Rinv_l by Lra.lra. Lra.lra. }
    Lra.nra. }
  replace ((speed * (dlat / ds + 3 / 10 * (- dls / ds))) ^ 2
           + (speed * (- dls / ds + 3 / 10 * (- dlat / ds))) ^ 2)
    with (109 / 100 * speed ^ 2 * ((d * / ds) ^ 2)).
  - pose proof (pow2_ge_0 speed) as Hs2.
    set (q := (d * / ds) ^ 2) in *. set (s2 := speed ^ 2) in *.
    assert (0 <= s2 * (1 - q)) by (apply Rmult_le_pos; Lra.lra).
    clearbody q s2. Lra.lra.
  - replace ((d * / ds) ^ 2) with ((dlat ^ 2 + dls ^ 2) * (/ ds) ^ 2)
      by (rewrite <- Hsq; ring).
    field. Lra.lra.
Qed.

(** X17.  At a grid point at least [1e-6] from the centre the wind has
    magnitude [sqrt 1.09] times the profile's speed; its part towards the
    centre is 0.3 times the speed, and its part across the direction to the
    centre is the speed itself, turning clockwise on a map with east to the
    right and north up. *)
Theorem cyclone_wind_spirals_inward
  (lat lon center_lat center_lon max_wind core_radius outer_radius : R) :
  1e-6 <= WindFixtures.center_distance lat lon center_lat center_lon ->
  let dlat := lat - center_lat in
  let dlon_scaled := wrap_dlon (lon - center_lon) * cos lat in
  let dist := WindFixtures.center_distance lat lon center_lat center_lon in
  exists speed u v,
    WindFixtures.wind_speed dist max_wind core_radius outer_radius
    = Some speed /\
    WindFixtures.cyclone_point lat lon center_lat center_lon
      max_wind core_radius outer_radius = Some (u, v) /\
    u ^ 2 + v ^ 2 = 1.09 * speed ^ 2 /\
    u * dlon_scaled + v * dlat = - (0.3 * speed * dist) /\
    dlon_scaled * v - dlat * u = - (speed * dist).
Proof.
  intros Hfar. cbv zeta.
  destruct (center_distance_square lat lon center_lat center_lon) as [Hd Hsq].
  assert (Hspeed : exists speed,
             WindFixtures.wind_speed
               (WindFixtures.center_distance lat lon center_lat center_lon)
               max_wind core_radius outer_radius = Some speed).
  { destruct (wind_speed_cases max_wind core_radius outer_radius Hd)
      as [[_ E]|[[_ E]|[_ [_ E]]]]; rewrite E; eexists; reflexivity. }
  destruct Hspeed as [speed E].
  pose proof (cyclone_point_eq _ _ _ _ _ _ _ E) as Hp. cbv zeta in Hp.
  rewrite (Rmax_left _ _ Hfar) in Hp.
  set (d := WindFixtures.center_distance lat lon center_lat center_lon) in *.
  set (dlat := lat - center_lat) in *.
  set (dls := wrap_dlon (lon - center_lon) * cos lat) in *.
  clearbody d dlat dls.
  exists speed. eexists. eexists. split; [exact E|]. split; [exact Hp|].
  replace 0.3 with (3 / 10) by Lra.lra.
  replace 1.09 with (109 / 100) by Lra.lra.
  assert (Hd0 : d <> 0) by Lra.lra.
  assert (Hsq' : dlat ^ 2 = d * d - dls ^ 2) by Lra.lra.
  split; [|split].
  - transitivity (109 / 100 * speed ^ 2 * ((dlat ^ 2 + dls ^ 2) / (d * d))).
    + field. exact Hd0.
    + rewrite <- Hsq. field. exact Hd0.
  - transitivity (- (3 / 10 * speed * ((dlat ^ 2 + dls ^ 2) / d))).
    + field. exact Hd0.
    + rewrite <- Hsq. field. exact Hd0.
  - transitivity (- (speed * ((dlat ^ 2 + dls ^ 2) / d))).
    + field. exact Hd0.
    + rewrite <- Hsq. field. exact Hd0.
Qed.

Lemma cyclone_wind_spirals_inward_witness :
  exists speed u v,
    WindFixtures.cyclone_point 0.5 0 0 0 25.0 0.1 0.8 = Some (u, v) /\
    u ^ 2 + v ^ 2 = 1.09 * speed ^ 2.
Proof.
  assert (Hfar : 1e-6 <= WindFixtures.center_distance 0.5 0 0 0).
  { unfold WindFixtures.center_distance. cbv zeta.
    replace (0 - 0) with 0 by ring. rewrite wrap_dlon_zero.
    replace ((0.5 - 0) ^ 2 + (0 * cos 0.5) ^ 2) with (0.5 * 0.5) by ring.
    rewrite sqrt_square by Lra.lra. Lra.lra. }
  destruct (@cyclone_wind_spirals_inward 0.5 0 0 0 25.0 0.1 0.8 Hfar)
    as [s [u [v [_ [Hp [Hm _]]]]]].
  exists s, u, v. split; [exact Hp|exact Hm].
Defined.

(** X18.  A longitude difference of at most three half-turns is wrapped by
    the two [np.where] lines into [-PI, PI], by adding or subtracting at
    most one full turn; a larger difference is left outside that interval. *)
Theorem wrap_dlon_single_turn (d : R) :
  (- (3 * PI) <= d <= 3 * PI ->
   - PI <= wrap_dlon d <= PI /\
   (wrap_dlon d = d \/ wrap_dlon d = d - 2 * PI \/ wrap_dlon d = d + 2 * PI)) /\
  (3 * PI < d -> PI < wrap_dlon d) /\
  (d < - (3 * PI) -> wrap_dlon d < - PI).
Proof.
  pose proof PI_RGT_0 as Hpi. unfold wrap_dlon.
  destruct (Rltb PI d) eqn:E1.
  - apply Rltb_true in E1.
    rewrite (proj2 (Rltb_false (d - 2 * PI) (- PI))) by Lra.lra.
    split; [intros H; split; [Lra.lra|right; left; reflexivity]|].
    split; intros H; Lra.lra.
  - apply Rltb_false in E1. destruct (Rltb d (- PI)) eqn:E2.
    + apply Rltb_true in E2.
      split; [intros H; split; [Lra.lra|right; right; reflexivity]|].
      split; intros H; Lra.lra.
    + apply Rltb_false in E2.
      split; [intros H; split; [Lra.lra|left; reflexivity]|].
      split; intros H; Lra.lra.
Qed.

Lemma wrap_dlon_single_turn_witness :
  - PI <= wrap_dlon 0 <= PI.
Proof.
  assert (H : - (3 * PI) <= 0 <= 3 * PI) by (pose proof PI_RGT_0; Lra.lra).
  exact (proj1 (proj1 (wrap_dlon_single_turn 0) H)).
Defined.

Lemma influence_range (x : R) : 0 < exp (- 0.5 * x ^ 2) <= 1.
Proof.
  split; [apply exp_pos|].
  pose proof (pow2_ge_0 x) as Hx.
  destruct (Rle_lt_or_eq_dec (- 0.5 * x ^ 2) 0 ltac:(Lra.lra)) as [H|H].
  - rewrite <- exp_0. apply Rlt_le, exp_increasing, H.
  - rewrite H, exp_0. Lra.lra.
Qed.

(** X19.  Before the noise is added the pressure is within 7200 Pa of the
    base pressure at every point: strictly between 94000 and 108400, a
    range wider than the one the values are then clamped to. *)
Theorem pressure_before_noise_bounded (lat lon : R) :
  94000 < PressureFixtures.base_plus_anomalies lat lon < 108400.
Proof.
  unfold PressureFixtures.base_plus_anomalies. cbv zeta.
  unfold PressureFixtures.BASE_PRESSURE, PressureFixtures.LOW_PRESSURE,
    PressureFixtures.HIGH_PRESSURE.
  match goal with
  | |- _ < _ + _ * (exp (- 0.5 * ?a ^ 2) + exp (- 0.5 * ?b ^ 2))
               + _ * (exp (- 0.5 * ?c ^ 2) + exp (- 0.5 * ?e ^ 2)) < _ =>
      pose proof (influence_range a) as H1;
      pose proof (influence_range b) as H2;
      pose proof (influence_range c) as H3;
      pose proof (influence_range e) as H4;
      set (e1 := exp (- 0.5 * a ^ 2)) in *;
      set (e2 := exp (- 0.5 * b ^ 2)) in *;
      set (e3 := exp (- 0.5 * c ^ 2)) in *;
      set (e4 := exp (- 0.5 * e ^ 2)) in *
  end.
  clearbody e1 e2 e3 e4. Lra.lra.
Qed.

End FixtureFields.
